(** * gmail-housekeeping: the Gmail client, embedded and verified

    A shallow embedding of [src/gmail-client.ts] (class [GmailClient]) and of
    the result types of [src/types.ts].

    The three methods of the client are asynchronous but strictly sequential
    (every remote call is awaited before the next statement runs), so each
    one is a function from the state of the outside world to a new world, the
    list of observable events it produced, and either a returned value or a
    thrown one.  The Gmail service, the file system, the process environment
    and the terminal are not part of the repository: they are the fields of a
    class [Host], and every theorem holds for all hosts. *)

From Stdlib Require Import List String Ascii ZArith Arith Bool Lia DecimalString.
From Equations Require Import Equations.
Import ListNotations.

Open Scope string_scope.

(** ** JavaScript values the client handles *)

(** A thrown value: an [Error] object with its [message], or any other value
    with its [String(...)] rendering.  The client tells the two apart with
    [error instanceof Error]. *)
Inductive thrown : Type :=
| ErrorObj (message : string)
| NonError (rendering : string).

(** [error instanceof Error ? error.message : String(error)] *)
Definition error_text (error : thrown) : string :=
  match error with
  | ErrorObj message => message
  | NonError rendering => rendering
  end.

(** The numbers that reach [maxResults]: integer-valued numbers and [NaN]
    (what [parseInt] produces, and the literal 500). *)
Inductive jsnum : Type :=
| Num (z : Z)
| NaN.

(** Truthiness of a number: [0] and [NaN] are falsy. *)
Definition num_truthy (n : jsnum) : bool :=
  match n with
  | Num z => negb (Z.eqb z 0)
  | NaN => false
  end.

(** [Math.min(a, b)]: [NaN] if either argument is. *)
Definition Math_min (a b : jsnum) : jsnum :=
  match a, b with
  | Num x, Num y => Num (Z.min x y)
  | _, _ => NaN
  end.

(** Truthiness of a string: only the empty string is falsy. *)
Definition str_truthy (s : string) : bool :=
  match s with
  | EmptyString => false
  | String _ _ => true
  end.

(** Template-literal rendering of a length or a counter. *)
Definition nat_to_string (n : nat) : string :=
  NilZero.string_of_uint (Nat.to_uint n).

(** [parts.join(sep)] *)
Fixpoint join (sep : string) (parts : list string) : string :=
  match parts with
  | [] => ""
  | [p] => p
  | p :: rest => p ++ sep ++ join sep rest
  end.

(** [l.slice(a, b)] for [0 <= a <= b]; indices past the end are clamped. *)
Definition slice {A : Type} (l : list A) (a b : nat) : list A :=
  firstn (b - a) (skipn a l).

(** Strings are held as their UTF-8 bytes, while the runtime counts and
    cuts a string in UTF-16 units: a character of one, two or three bytes is
    one unit, a character of four bytes is two (a surrogate pair).  A byte
    from 128 to 191 continues the character before it; a byte from 240 up
    starts a character of four bytes. *)
Definition continuation (c : ascii) : bool :=
  Nat.leb 128 (nat_of_ascii c) && Nat.ltb (nat_of_ascii c) 192.

Definition four_bytes (c : ascii) : bool :=
  Nat.leb 240 (nat_of_ascii c).

(** U+FFFD, which is how a surrogate cut off from its pair is written
    out. *)
Definition replacement : string :=
  String "239"%char (String "191"%char (String "189"%char EmptyString)).

(** [s.length] *)
Fixpoint units (s : string) : nat :=
  match s with
  | EmptyString => 0
  | String c rest =>
      (if continuation c then 0 else if four_bytes c then 2 else 1)
      + units rest
  end.

(** [s.substring(0, n)]: the first [n] units.  A character is copied with
    the bytes that continue it; when one unit is left and the next character
    takes two, the first of its pair is kept alone. *)
Fixpoint take_units (n : nat) (s : string) : string :=
  match s with
  | EmptyString => EmptyString
  | String c rest =>
      if continuation c then String c (take_units n rest)
      else
        match n with
        | 0 => EmptyString
        | S n' =>
            if four_bytes c then
              match n' with
              | 0 => replacement
              | S n'' => String c (take_units n'' rest)
              end
            else String c (take_units n' rest)
        end
  end.

(** ** The types of [types.ts] *)

Record EmailMatch : Type := mkEmailMatch {
  id : string;
  threadId : string;
  snippet : string
}.

Record CleanupResult : Type := mkCleanupResult {
  totalFound : nat;
  deleted : nat;
  errors : list string
}.

(** The argument of [searchEmails]; every field is optional. *)
Record SearchConfig : Type := mkSearchConfig {
  senders : option (list string);
  subjects : option (list string);
  maxResults : option jsnum
}.

(** One entry of [response.data.messages]: both fields may be missing. *)
Record message : Type := mkMessage {
  message_id : option string;
  message_threadId : option string
}.

(** What [JSON.parse] can produce, and [undefined] for a missing property. *)
#[warning="-register-all"]
Inductive value : Type :=
| VUndefined
| VNull
| VBool (b : bool)
| VNum (n : jsnum)
| VStr (s : string)
| VArr (items : list value)
| VObj (fields : list (string * value)).

(** Truthiness, as [||], [&&] and [!] see it. *)
Definition truthy (v : value) : bool :=
  match v with
  | VUndefined | VNull => false
  | VBool b => b
  | VNum n => num_truthy n
  | VStr s => str_truthy s
  | VArr _ | VObj _ => true
  end.

(** [a || b] *)
Definition or_else (a b : value) : value :=
  if truthy a then a else b.

Fixpoint lookup (name : string) (fields : list (string * value)) : value :=
  match fields with
  | [] => VUndefined
  | (k, v) :: rest => if String.eqb k name then v else lookup name rest
  end.

(** [v.name] for a name that no array, string, number or boolean has
    ([installed], [web], [client_id], [client_secret], [redirect_uris]):
    reading a property of [undefined] or [null] throws a [TypeError]. *)
Definition get_prop (v : value) (name : string) : thrown + value :=
  match v with
  | VUndefined =>
      inl (ErrorObj ("Cannot read properties of undefined (reading '"
                     ++ name ++ "')"))
  | VNull =>
      inl (ErrorObj ("Cannot read properties of null (reading '"
                     ++ name ++ "')"))
  | VObj fields => inr (lookup name fields)
  | _ => inr VUndefined
  end.

(** [v[0]] *)
Definition get_first (v : value) : thrown + value :=
  match v with
  | VUndefined =>
      inl (ErrorObj "Cannot read properties of undefined (reading '0')")
  | VNull =>
      inl (ErrorObj "Cannot read properties of null (reading '0')")
  | VArr items => inr (nth 0 items VUndefined)
  | VStr s =>
      inr (match s with
           | EmptyString => VUndefined
           | String c _ => VStr (String c EmptyString)
           end)
  | VObj fields => inr (lookup "0" fields)
  | _ => inr VUndefined
  end.

(** The state of [this.auth] once constructed: the three constructor
    arguments and the credentials last given to [setCredentials] (an empty
    object until then). *)
Record OAuth2Client : Type := mkOAuth2Client {
  clientId : value;
  clientSecret : value;
  redirectUri : value;
  credentials : value
}.

(** ** The outside world *)

(** The remote calls take the world and answer with a new world and either a
    rejection ([inl]) or a response ([inr]).  [userId] is always ['me'], the
    metadata request always asks for [format: 'metadata'] with the headers
    [From] and [Subject], and the authorization URL is always asked for with
    [access_type: 'offline'] and the scope [https://mail.google.com/]; these
    constants are left out of the requests.  The last five fields are pure
    functions of the runtime and of the Google libraries. *)
Class Host : Type := mkHost {
  world : Type;
  (** [gmail.users.messages.list({q, maxResults})]: [data.messages], which
      may be absent. *)
  messages_list :
    world -> string -> jsnum -> world * (thrown + option (list message));
  (** [gmail.users.messages.get({id})]: [data.snippet], which may be absent. *)
  messages_get : world -> string -> world * (thrown + option string);
  (** [gmail.users.messages.batchDelete({requestBody: {ids}})] *)
  messages_batchDelete : world -> list string -> world * (thrown + unit);
  (** [gmail.users.getProfile()], made with the given client. *)
  users_getProfile : world -> OAuth2Client -> world * (thrown + unit);
  (** [auth.getToken(code)]: the [tokens] of the response. *)
  auth_getToken : world -> OAuth2Client -> string -> world * (thrown + value);
  existsSync : world -> string -> bool;
  (** [readFileSync(path, 'utf-8')] *)
  readFileSync : world -> string -> thrown + string;
  writeFileSync : world -> string -> string -> world * (thrown + unit);
  (** [process.env.NAME] *)
  process_env : world -> string -> option string;
  (** [rl.question(prompt, ...)]: the line the operator types. *)
  rl_question : world -> string -> world * string;
  generateAuthUrl : OAuth2Client -> string;
  JSON_parse : string -> thrown + value;
  JSON_stringify : value -> string;
  (** What a template literal makes of a value. *)
  String_of : value -> string;
  (** [s.trim()] *)
  trim : string -> string
}.

(** Template-literal rendering of a number.  A safe integer (below [2^53]
    in absolute value) is printed in plain decimal; beyond that the runtime
    picks the shortest digits that give the number back, and from [1e21] up
    the exponent form, which is left to [String_of]. *)
Definition num_to_string `{Host} (n : jsnum) : string :=
  match n with
  | Num z =>
      if Z.ltb (Z.abs z) 9007199254740992%Z
      then NilZero.string_of_int (Z.to_int z)
      else String_of (VNum n)
  | NaN => "NaN"
  end.

(** What an observer of a run sees, in order: console output, the remote
    calls with what came back, the prompt with what was typed, and file
    writes. *)
Inductive event : Type :=
| console_log (line : string)
| console_error (line : string) (detail : option thrown)
| list_request (q : string) (maxResults : jsnum)
               (answer : thrown + option (list message))
| get_request (id : string) (answer : thrown + option string)
| batchDelete_request (ids : list string) (failure : option thrown)
| getProfile_request (auth : OAuth2Client) (failure : option thrown)
| getToken_request (auth : OAuth2Client) (code : string)
                   (failure : option thrown)
| prompt (question answer : string)
| file_write (path content : string) (failure : option thrown).

Section Client.

Context `{Host}.

(** ** Sequential effectful computations *)

Record outcome (A : Type) : Type := mkOutcome {
  final : world;
  trace : list event;
  result : thrown + A
}.
Arguments mkOutcome {A}.
Arguments final {A}.
Arguments trace {A}.
Arguments result {A}.

Definition M (A : Type) : Type := world -> outcome A.

Definition ret {A : Type} (a : A) : M A :=
  fun w => mkOutcome w [] (inr a).

Definition throw {A : Type} (e : thrown) : M A :=
  fun w => mkOutcome w [] (inl e).

Definition bind {A B : Type} (m : M A) (k : A -> M B) : M B :=
  fun w =>
    let o := m w in
    match result o with
    | inl e => mkOutcome (final o) (trace o) (inl e)
    | inr a =>
        let o' := k a (final o) in
        mkOutcome (final o') (trace o ++ trace o')%list (result o')
    end.

(** [try { body } catch (error) { handler }] *)
Definition try_catch {A : Type} (body : M A) (handler : thrown -> M A) : M A :=
  fun w =>
    let o := body w in
    match result o with
    | inl e =>
        let o' := handler e (final o) in
        mkOutcome (final o') (trace o ++ trace o')%list (result o')
    | inr a => o
    end.

Definition emit (e : event) : M unit :=
  fun w => mkOutcome w [e] (inr tt).

End Client.

Arguments mkOutcome {H A}.
Arguments final {H A}.
Arguments trace {H A}.
Arguments result {H A}.

Declare Scope js_scope.
Delimit Scope js_scope with js.
Notation "x <- m ;; k" := (bind m (fun x => k))
  (at level 61, m at next level, right associativity) : js_scope.
Notation "m ;;; k" := (bind m (fun _ => k))
  (at level 61, right associativity) : js_scope.

Open Scope js_scope.

Section GmailClient.

Context `{Host}.

(** ** Remote calls, each recorded in the trace with what came back *)

Definition failure_of {A : Type} (r : thrown + A) : option thrown :=
  match r with
  | inl e => Some e
  | inr _ => None
  end.

Definition users_messages_list (q : string) (maxResults : jsnum)
  : M (option (list message)) :=
  fun w =>
    let (w', r) := messages_list w q maxResults in
    mkOutcome w' [list_request q maxResults r] r.

Definition users_messages_get (id : string) : M (option string) :=
  fun w =>
    let (w', r) := messages_get w id in
    mkOutcome w' [get_request id r] r.

Definition users_messages_batchDelete (ids : list string) : M unit :=
  fun w =>
    let (w', r) := messages_batchDelete w ids in
    mkOutcome w' [batchDelete_request ids (failure_of r)] r.

(** ** [batchDeleteEmails] *)

Definition batchSize : nat := 1000.

(** The body of the [for] loop: one [try]/[catch] around one request.  The
    object [result] is mutated in place by the source; here the current value
    goes in and the updated one comes out. *)
Definition deleteBatch (batch : list string) (result : CleanupResult)
  : M CleanupResult :=
  try_catch
    (users_messages_batchDelete batch ;;;
     let result' :=
       mkCleanupResult (totalFound result)
                       (deleted result + List.length batch)
                       (errors result) in
     emit (console_log
             ("Deleted batch: " ++ nat_to_string (List.length batch)
              ++ " emails (" ++ nat_to_string (deleted result')
              ++ "/" ++ nat_to_string (totalFound result') ++ ")")) ;;;
     ret result')
    (fun error =>
       let errorMsg := "Error deleting batch: " ++ error_text error in
       let result' :=
         mkCleanupResult (totalFound result)
                         (deleted result)
                         (errors result ++ [errorMsg])%list in
       emit (console_error errorMsg None) ;;;
       ret result').

(** [for (let i = 0; i < messageIds.length; i += batchSize) { ... }],
    entered at index [i]. *)
Equations? deleteLoop (messageIds : list string) (i : nat)
  (result : CleanupResult) : M CleanupResult
  by wf (List.length messageIds - i) lt :=
deleteLoop messageIds i result with lt_dec i (List.length messageIds) => {
  | left _ =>
      let batch := slice messageIds i (i + batchSize) in
      result' <- deleteBatch batch result ;;
      deleteLoop messageIds (i + batchSize) result'
  | right _ => ret result }.
Proof. unfold batchSize. lia. Qed.

Definition batchDeleteEmails (messageIds : list string) (dryRun : bool)
  : M CleanupResult :=
  let result := mkCleanupResult (List.length messageIds) 0 [] in
  if dryRun then
    emit (console_log
            ("[DRY RUN] Would delete " ++ nat_to_string (List.length messageIds)
             ++ " emails")) ;;;
    ret result
  else
    deleteLoop messageIds 0 result.



(** ** [searchEmails] *)

(** The double quote, and the line feed of ['\n']. *)
Definition dquote : string := String "034"%char EmptyString.
Definition nl : string := String "010"%char EmptyString.

(** [`from:${sender}`] and [`subject:"${subject}"`] *)
Definition from_term (sender : string) : string := "from:" ++ sender.
Definition subject_term (subject : string) : string :=
  "subject:" ++ dquote ++ subject ++ dquote.

(** [`(${terms.join(' OR ')})`] *)
Definition or_group (terms : list string) : string :=
  "(" ++ join " OR " terms ++ ")".

(** [given && given.length > 0] for an optional array. *)
Definition present (given : option (list string)) : bool :=
  match given with
  | Some l => Nat.ltb 0 (List.length l)
  | None => false
  end.

Definition entries (given : option (list string)) : list string :=
  match given with
  | Some l => l
  | None => []
  end.

(** The array [queryParts] after the two conditional pushes. *)
Definition build_queryParts (config : SearchConfig) : list string :=
  let queryParts : list string := [] in
  let queryParts :=
    if present (senders config) then
      let senderQueries := map from_term (entries (senders config)) in
      (queryParts ++ [or_group senderQueries])%list
    else queryParts in
  let queryParts :=
    if present (subjects config) then
      let subjectQueries := map subject_term (entries (subjects config)) in
      (queryParts ++ [or_group subjectQueries])%list
    else queryParts in
  queryParts.

(** [config.maxResults || 500] *)
Definition maxResults_or_default (config : SearchConfig) : jsnum :=
  match maxResults config with
  | Some n => if num_truthy n then n else Num 500
  | None => Num 500
  end.

(** [s || ''] for an optional string. *)
Definition or_empty (s : option string) : string :=
  match s with
  | Some s => s
  | None => ""
  end.

(** One turn of [for (const message of messageIds)]: the array [matches]
    goes in and comes out. *)
Definition fetchMessage (message : message) (matches : list EmailMatch)
  : M (list EmailMatch) :=
  match message_id message with
  | Some id =>
      if str_truthy id then
        try_catch
          (msgResponse <- users_messages_get id ;;
           let snippet := or_empty msgResponse in
           ret (matches
                ++ [mkEmailMatch id (or_empty (message_threadId message))
                                 (take_units 100 snippet)])%list)
          (fun error =>
             emit (console_error ("Error fetching message " ++ id ++ ":")
                                 (Some error)) ;;;
             ret matches)
      else ret matches
  | None => ret matches
  end.

Fixpoint fetchLoop (messageIds : list message) (matches : list EmailMatch)
  : M (list EmailMatch) :=
  match messageIds with
  | [] => ret matches
  | message :: rest =>
      matches' <- fetchMessage message matches ;;
      fetchLoop rest matches'
  end.

Definition searchEmails (config : SearchConfig) : M (list EmailMatch) :=
  let queryParts := build_queryParts config in
  if Nat.eqb (List.length queryParts) 0 then
    throw (ErrorObj "At least one sender or subject must be specified")
  else
    let query := join " AND " queryParts in
    let maxResults := maxResults_or_default config in
    emit (console_log ("Searching for emails with query: " ++ query)) ;;;
    emit (console_log ("Max results: " ++ num_to_string maxResults)) ;;;
    response <- users_messages_list query (Math_min maxResults (Num 500)) ;;
    let messageIds :=
      match response with
      | Some messages => messages
      | None => []
      end in
    fetchLoop messageIds [].


(** ** [authenticate] *)

Definition lift {A : Type} (r : thrown + A) : M A :=
  fun w : world => mkOutcome w [] r.

Definition fs_existsSync (path : string) : M bool :=
  fun w => mkOutcome w [] (inr (existsSync w path)).

Definition fs_readFileSync (path : string) : M string :=
  fun w => mkOutcome w [] (readFileSync w path).

Definition fs_writeFileSync (path content : string) : M unit :=
  fun w =>
    let (w', r) := writeFileSync w path content in
    mkOutcome w' [file_write path content (failure_of r)] r.

Definition env (name : string) : M (option string) :=
  fun w => mkOutcome w [] (inr (process_env w name)).

Definition question (text : string) : M string :=
  fun w =>
    let (w', answer) := rl_question w text in
    mkOutcome w' [prompt text answer] (inr answer).

Definition gmail_users_getProfile (auth : OAuth2Client) : M unit :=
  fun w =>
    let (w', r) := users_getProfile w auth in
    mkOutcome w' [getProfile_request auth (failure_of r)] r.

Definition getToken (auth : OAuth2Client) (code : string) : M value :=
  fun w =>
    let (w', r) := auth_getToken w auth code in
    mkOutcome w' [getToken_request auth code (failure_of r)] r.

(** [auth.setCredentials(token)] *)
Definition setCredentials (auth : OAuth2Client) (token : value)
  : OAuth2Client :=
  mkOAuth2Client (clientId auth) (clientSecret auth) (redirectUri auth) token.

(** Truthiness of an environment variable, which may be unset. *)
Definition set_and_truthy (v : option string) : bool :=
  match v with
  | Some s => str_truthy s
  | None => false
  end.

(** Lines 27-43: the client id, the client secret and the redirect URI, from
    [credentials.json] or from the environment. *)
Definition resolve_credentials : M (value * value * value) :=
  found <- fs_existsSync "credentials.json" ;;
  if found then
    text <- fs_readFileSync "credentials.json" ;;
    credentials <- lift (JSON_parse text) ;;
    installed <- lift (get_prop credentials "installed") ;;
    creds <- (if truthy installed then ret installed
              else lift (get_prop credentials "web")) ;;
    clientId <- lift (get_prop creds "client_id") ;;
    clientSecret <- lift (get_prop creds "client_secret") ;;
    redirect_uris <- lift (get_prop creds "redirect_uris") ;;
    redirectUri <- lift (get_first redirect_uris) ;;
    ret (clientId, clientSecret, redirectUri)
  else
    CLIENT_ID <- env "CLIENT_ID" ;;
    CLIENT_SECRET <- env "CLIENT_SECRET" ;;
    if set_and_truthy CLIENT_ID && set_and_truthy CLIENT_SECRET then
      REDIRECT_URI <- env "REDIRECT_URI" ;;
      ret (VStr (or_empty CLIENT_ID), VStr (or_empty CLIENT_SECRET),
           VStr (if set_and_truthy REDIRECT_URI then or_empty REDIRECT_URI
                 else "http://localhost:3000/oauth2callback"))
    else
      throw (ErrorObj
               ("credentials.json not found and CLIENT_ID/CLIENT_SECRET not set."
                ++ nl ++
                "Please download credentials.json from Google Cloud Console or set environment variables."
                ++ nl ++
                "See README.md for setup instructions.")).

(** Lines 49-61: [Some auth'] when the method returns from inside the [try],
    [None] when control leaves the [if] and goes on; either way the client is
    handed on as [setCredentials] left it. *)
Definition check_saved_token (auth : OAuth2Client)
  : M (bool * OAuth2Client) :=
  found <- fs_existsSync "token.json" ;;
  if found then
    text <- fs_readFileSync "token.json" ;;
    token <- lift (JSON_parse text) ;;
    let auth := setCredentials auth token in
    try_catch
      (gmail_users_getProfile auth ;;;
       ret (true, auth))
      (fun error =>
         emit (console_log
                 "Saved token is invalid or expired. Re-authenticating...") ;;;
         ret (false, auth))
  else ret (false, auth).

Definition banner : string :=
  "═══════════════════════════════════════════════════════════".

(** Lines 63-110: the interactive authorization. *)
Definition authorize (auth : OAuth2Client) : M OAuth2Client :=
  let authUrl := generateAuthUrl auth in
  emit (console_log (nl ++ banner)) ;;;
  emit (console_log "🔐 Gmail API Authorization Required") ;;;
  emit (console_log (banner ++ nl)) ;;;
  emit (console_log "1. Open this URL in your browser:") ;;;
  emit (console_log ("   " ++ authUrl ++ nl)) ;;;
  emit (console_log "2. Sign in with your Google account") ;;;
  emit (console_log ("3. Click " ++ dquote ++ "Allow" ++ dquote
                     ++ " to grant access" ++ nl)) ;;;
  emit (console_log
          "4. After authorization, you will be redirected to a page.") ;;;
  emit (console_log
          "   Look at the URL in your browser - it will look like:") ;;;
  emit (console_log ("   " ++ String_of (redirectUri auth)
                     ++ "?code=4/XXXXXXXXXXXXXXXXXXXXXXXXXXXXX" ++ nl)) ;;;
  emit (console_log
          ("5. Copy the ENTIRE code value (everything after " ++ dquote
           ++ "code=" ++ dquote ++ ")")) ;;;
  emit (console_log ("   and paste it below when prompted." ++ nl)) ;;;
  emit (console_log (banner ++ nl)) ;;;
  AUTH_CODE <- env "AUTH_CODE" ;;
  code <- (if set_and_truthy AUTH_CODE then ret (or_empty AUTH_CODE)
           else
             answer <- question "Paste the authorization code here: " ;;
             let code := trim answer in
             if str_truthy code then ret code
             else
               throw (ErrorObj
                        "Authorization code is required. Please run again and provide the code.")) ;;
  tokens <- getToken auth code ;;
  let auth := setCredentials auth tokens in
  fs_writeFileSync "token.json" (JSON_stringify tokens) ;;;
  emit (console_log "Token stored to token.json") ;;;
  ret auth.

(** The method returns nothing; what it leaves behind is [this.auth], which
    is the value returned here. *)
Definition authenticate : M OAuth2Client :=
  resolved <- resolve_credentials ;;
  let '(clientId, clientSecret, redirectUri) := resolved in
  let auth := mkOAuth2Client clientId clientSecret redirectUri (VObj []) in
  checked <- check_saved_token auth ;;
  let '(returned, auth) := checked in
  if returned then ret auth else authorize auth.

End GmailClient.

(** ** Reading a trace *)

(** The calls that go to the network. *)
Definition is_remote_call (e : event) : bool :=
  match e with
  | list_request _ _ _ | get_request _ _ | batchDelete_request _ _
  | getProfile_request _ _ | getToken_request _ _ _ => true
  | _ => false
  end.

(** The listing requests: query and [maxResults], in order. *)
Fixpoint listings (tr : list event) : list (string * jsnum) :=
  match tr with
  | [] => []
  | list_request q n _ :: rest => (q, n) :: listings rest
  | _ :: rest => listings rest
  end.

(** The candidates the listing calls returned. *)
Fixpoint candidates (tr : list event) : list message :=
  match tr with
  | [] => []
  | list_request _ _ (inr (Some messages)) :: rest =>
      (messages ++ candidates rest)%list
  | _ :: rest => candidates rest
  end.

(** The metadata requests with their answers, in order. *)
Fixpoint fetches (tr : list event) : list (string * (thrown + option string)) :=
  match tr with
  | [] => []
  | get_request id answer :: rest => (id, answer) :: fetches rest
  | _ :: rest => fetches rest
  end.

(** The deletion requests with their fate, in order. *)
Fixpoint deletions (tr : list event) : list (list string * option thrown) :=
  match tr with
  | [] => []
  | batchDelete_request ids failure :: rest => (ids, failure) :: deletions rest
  | _ :: rest => deletions rest
  end.

(** The profile probes, the prompts and the lines printed by [console.log]
    and [console.error]. *)
Fixpoint probes (tr : list event) : list (OAuth2Client * option thrown) :=
  match tr with
  | [] => []
  | getProfile_request auth failure :: rest => (auth, failure) :: probes rest
  | _ :: rest => probes rest
  end.

Fixpoint prompts (tr : list event) : list string :=
  match tr with
  | [] => []
  | prompt text _ :: rest => text :: prompts rest
  | _ :: rest => prompts rest
  end.

Fixpoint logged (tr : list event) : list string :=
  match tr with
  | [] => []
  | console_log line :: rest => line :: logged rest
  | _ :: rest => logged rest
  end.

Fixpoint error_lines (tr : list event) : list (string * option thrown) :=
  match tr with
  | [] => []
  | console_error line detail :: rest => (line, detail) :: error_lines rest
  | _ :: rest => error_lines rest
  end.

Definition failed {A B : Type} (r : A * option B) : bool :=
  match snd r with
  | Some _ => true
  | None => false
  end.

Definition rejected {A B : Type} (r : A * (thrown + B)) : bool :=
  match snd r with
  | inl _ => true
  | inr _ => false
  end.

(** The chunks whose request failed, and how many ids they hold. *)
Definition failed_chunks (tr : list event) : list (list string) :=
  map fst (filter failed (deletions tr)).

Definition total_size (chunks : list (list string)) : nat :=
  list_sum (map (@List.length string) chunks).

(** The ids of the chunks whose request succeeded, and the error messages of
    the others, as the loop accumulates them. *)
Definition deleted_count (d : list (list string * option thrown)) : nat :=
  total_size (map fst (filter (fun r => negb (failed r)) d)).

Fixpoint failure_messages (d : list (list string * option thrown))
  : list string :=
  match d with
  | [] => []
  | (_, Some e) :: rest =>
      ("Error deleting batch: " ++ error_text e) :: failure_messages rest
  | (_, None) :: rest => failure_messages rest
  end.

(** The [k]-th chunk of a list cut into pieces of [batchSize], and the
    number of pieces a list of [n] entries gives. *)
Definition chunk (ids : list string) (k : nat) : list string :=
  slice ids (k * 1000) (k * 1000 + 1000).

Definition chunk_count (n : nat) : nat := (n + 999) / 1000.

(** A candidate for which the loop makes a metadata request. *)
Definition has_id (m : message) : bool :=
  match message_id m with
  | Some id => str_truthy id
  | None => false
  end.

(** The match built from a candidate and the snippet its metadata request
    returned, and the matches built from the candidates that have an id,
    given the answers to their metadata requests in order. *)
Definition match_of (m : message) (snippet : option string) : EmailMatch :=
  mkEmailMatch (or_empty (message_id m)) (or_empty (message_threadId m))
               (take_units 100 (or_empty snippet)).

Fixpoint matches_of (ms : list message)
  (answers : list (thrown + option string)) : list EmailMatch :=
  match ms, answers with
  | m :: ms', inr snippet :: answers' =>
      match_of m snippet :: matches_of ms' answers'
  | _ :: ms', inl _ :: answers' => matches_of ms' answers'
  | _, _ => []
  end.

(** [response.data.messages || []] *)
Definition listed (response : option (list message)) : list message :=
  match response with
  | Some messages => messages
  | None => []
  end.

(** [s] occurs in [t] as a contiguous piece. *)
Fixpoint occurs (s t : string) : bool :=
  prefix s t ||
  match t with
  | EmptyString => false
  | String _ t' => occurs s t'
  end.

(** The character [c] occurs in [s]. *)
Fixpoint has_char (c : ascii) (s : string) : bool :=
  match s with
  | EmptyString => false
  | String a s' => Ascii.eqb a c || has_char c s'
  end.

(** [xs] is [ys] with some entries dropped, order kept. *)
Inductive subsequence {A : Type} : list A -> list A -> Prop :=
| subsequence_nil : subsequence [] []
| subsequence_keep x xs ys :
    subsequence xs ys -> subsequence (x :: xs) (x :: ys)
| subsequence_drop y xs ys :
    subsequence xs ys -> subsequence xs (y :: ys).

(** ** [index.ts]: the command line *)

Module Cli.

(** [CleanupConfig] of [types.ts]; every field is optional. *)
Record CleanupConfig : Type := mkCleanupConfig {
  senders : option (list string);
  subjects : option (list string);
  maxResults : option jsnum;
  dryRun : option bool
}.

(** [args.includes(x)] *)
Definition includes (x : string) (args : list string) : bool :=
  existsb (String.eqb x) args.

(** [args.indexOf(x)], with [None] for [-1]. *)
Fixpoint indexOf (x : string) (args : list string) : option nat :=
  match args with
  | [] => None
  | a :: rest =>
      if String.eqb a x then Some 0 else option_map S (indexOf x rest)
  end.

(** [index !== -1 && args[index + 1]], with [index = args.indexOf(flag)]:
    the argument after the first occurrence of [flag], when there is one and
    it is not the empty string. *)
Definition flag_value (flag : string) (args : list string) : option string :=
  match indexOf flag args with
  | Some index =>
      match nth_error args (index + 1) with
      | Some v => if str_truthy v then Some v else None
      | None => None
      end
  | None => None
  end.

(** [s.split(',')] *)
Fixpoint split_commas (s : string) : list string :=
  match s with
  | EmptyString => [EmptyString]
  | String c rest =>
      if Ascii.eqb c ","%char then EmptyString :: split_commas rest
      else
        match split_commas rest with
        | piece :: pieces => String c piece :: pieces
        | [] => [String c EmptyString]
        end
  end.

(** The text printed for [--help]. *)
Definition help_text : string :=
  join nl
    ["";
     "Gmail Housekeeping Tool";
     "";
     "Usage:";
     "  npm run dev -- [options]";
     "";
     "Options:";
     "  --senders <emails>     Comma-separated list of sender emails to match";
     "  --subjects <subjects>  Comma-separated list of subject keywords to match";
     "  --max-results <num>    Maximum number of emails to process (default: 500)";
     "  --dry-run              Show what would be deleted without actually deleting";
     "  --help, -h             Show this help message";
     "";
     "Examples:";
     "  # Delete emails from specific senders";
     ("  npm run dev -- --senders " ++ dquote ++ "spam@example.com,promos@example.com" ++ dquote);
     "";
     "  # Delete emails with specific subjects";
     ("  npm run dev -- --subjects " ++ dquote ++ "Unsubscribe,Special Offer" ++ dquote);
     "";
     "  # Combine both criteria";
     ("  npm run dev -- --senders " ++ dquote ++ "spam@example.com" ++ dquote ++ " --subjects " ++ dquote ++ "Promotion" ++ dquote);
     "";
     "  # Dry run to preview";
     ("  npm run dev -- --senders " ++ dquote ++ "spam@example.com" ++ dquote ++ " --dry-run");
     "";
     "Environment Variables:";
     "  CLIENT_ID              Google OAuth2 Client ID";
     "  CLIENT_SECRET          Google OAuth2 Client Secret";
     "  REDIRECT_URI           OAuth2 redirect URI (default: http://localhost:3000/oauth2callback)";
     "  AUTH_CODE              OAuth2 authorization code (for first-time setup)";
     ""].

Section Main.

Context `{Host}.

(** [parseInt(s, 10)] of the runtime. *)
Variable parseInt : string -> jsnum.

(** Lines 8-29: the configuration read from the arguments. *)
Definition parse_args (args : list string) : CleanupConfig :=
  let config :=
    mkCleanupConfig None None (Some (Num 500))
                    (Some (includes "--dry-run" args)) in
  let config :=
    match flag_value "--senders" args with
    | Some v =>
        mkCleanupConfig (Some (map trim (split_commas v))) (subjects config)
                        (maxResults config) (dryRun config)
    | None => config
    end in
  let config :=
    match flag_value "--subjects" args with
    | Some v =>
        mkCleanupConfig (senders config) (Some (map trim (split_commas v)))
                        (maxResults config) (dryRun config)
    | None => config
    end in
  let config :=
    match flag_value "--max-results" args with
    | Some v =>
        mkCleanupConfig (senders config) (subjects config)
                        (Some (parseInt v)) (dryRun config)
    | None => config
    end in
  config.

(** [list.forEach((item, index) => console.log(line(item, index)))],
    entered at [index]. *)
Fixpoint log_each {A : Type} (line : A -> nat -> string) (index : nat)
  (items : list A) : M unit :=
  match items with
  | [] => ret tt
  | item :: rest =>
      emit (console_log (line item index)) ;;;
      log_each line (S index) rest
  end.

(** An optional array is truthy when it is there, an optional boolean when
    it is there and true. *)
Definition given {A : Type} (o : option A) : bool :=
  match o with
  | Some _ => true
  | None => false
  end.

Definition flag_set (o : option bool) : bool :=
  match o with
  | Some b => b
  | None => false
  end.

(** Lines 76-125, the body of the [try]: [None] when it runs to its end or
    returns, which leaves the exit status to the runtime. *)
Definition cleanup (config : CleanupConfig) : M (option nat) :=
  emit (console_log "Authenticating with Gmail API...") ;;;
  _ <- authenticate ;;
  emit (console_log ("Authentication successful!" ++ nl)) ;;;
  matches <- searchEmails
               (mkSearchConfig (senders config) (subjects config)
                               (maxResults config)) ;;
  emit (console_log
          (nl ++ "Found " ++ nat_to_string (List.length matches)
           ++ " matching emails" ++ nl)) ;;;
  if Nat.eqb (List.length matches) 0 then
    emit (console_log "No emails to delete.") ;;;
    ret None
  else
    emit (console_log "Preview of matches:") ;;;
    log_each
      (fun m index =>
         "  " ++ nat_to_string (index + 1) ++ ". " ++ snippet m ++ "...")
      0 (slice matches 0 5) ;;;
    (if Nat.ltb 5 (List.length matches) then
       emit (console_log
               ("  ... and " ++ nat_to_string (List.length matches - 5)
                ++ " more"))
     else ret tt) ;;;
    if flag_set (dryRun config) then
      emit (console_log (nl ++ "[DRY RUN] No emails were deleted.")) ;;;
      ret None
    else
      emit (console_log
              (nl ++ "⚠️  About to delete " ++ nat_to_string (List.length matches)
               ++ " emails.")) ;;;
      emit (console_log "This action cannot be undone!") ;;;
      emit (console_log (nl ++ "Deleting emails...")) ;;;
      result <- batchDeleteEmails (map id matches) false ;;
      emit (console_log (nl ++ "✅ Cleanup complete!")) ;;;
      emit (console_log
              ("   Total found: " ++ nat_to_string (totalFound result))) ;;;
      emit (console_log ("   Deleted: " ++ nat_to_string (deleted result))) ;;;
      (if Nat.ltb 0 (List.length (errors result)) then
         emit (console_log
                 ("   Errors: "
                  ++ nat_to_string (List.length (errors result)))) ;;;
         log_each (fun err _ => "     - " ++ err) 0 (errors result)
       else ret tt) ;;;
      ret None.

(** [main], given [process.argv.slice(2)]: the status passed to
    [process.exit], or [None] when the function returns.  The second
    argument of [console.error('Error:', text)] is a string, a value that is
    no [Error] and renders as itself. *)
Definition main (args : list string) : M (option nat) :=
  let config := parse_args args in
  if includes "--help" args || includes "-h" args then
    emit (console_log help_text) ;;;
    ret (Some 0)
  else if negb (given (senders config)) && negb (given (subjects config)) then
    emit (console_error
            "Error: At least one of --senders or --subjects must be specified"
            None) ;;;
    emit (console_log "Use --help for usage information") ;;;
    ret (Some 1)
  else
    try_catch
      (cleanup config)
      (fun error =>
         emit (console_error "Error:" (Some (NonError (error_text error)))) ;;;
         ret (Some 1)).

End Main.

End Cli.

(** The search configuration that [main] hands to [searchEmails]. *)
Definition search_config (config : Cli.CleanupConfig) : SearchConfig :=
  mkSearchConfig (Cli.senders config) (Cli.subjects config)
                 (Cli.maxResults config).

(** ** Kinds of events *)

(** What [authenticate], [searchEmails] and [batchDeleteEmails] may each
    leave in a trace. *)
Definition auth_event (e : event) : bool :=
  match e with
  | console_log _ | getProfile_request _ _ | getToken_request _ _ _
  | prompt _ _ => true
  | file_write path _ _ => String.eqb path "token.json"
  | _ => false
  end.

Definition search_event (e : event) : bool :=
  match e with
  | console_log _ | console_error _ _ | list_request _ _ _
  | get_request _ _ => true
  | _ => false
  end.

Definition delete_event (e : event) : bool :=
  match e with
  | console_log _ | console_error _ _ | batchDelete_request _ _ => true
  | _ => false
  end.

(** The calls that read or delete messages. *)
Definition is_mail_call (e : event) : bool :=
  match e with
  | list_request _ _ _ | get_request _ _ | batchDelete_request _ _ => true
  | _ => false
  end.

Definition is_log (e : event) : bool :=
  match e with
  | console_log _ => true
  | _ => false
  end.

Definition is_deletion (e : event) : bool :=
  match e with
  | batchDelete_request _ _ => true
  | _ => false
  end.

Definition is_probe (e : event) : bool :=
  match e with
  | getProfile_request _ _ => true
  | _ => false
  end.

Definition is_prompt (e : event) : bool :=
  match e with
  | prompt _ _ => true
  | _ => false
  end.

Definition is_exchange (e : event) : bool :=
  match e with
  | getToken_request _ _ _ => true
  | _ => false
  end.

Definition is_write (e : event) : bool :=
  match e with
  | file_write _ _ _ => true
  | _ => false
  end.

(** The token exchanges and the file writes of a trace, in order. *)
Fixpoint exchanges (tr : list event)
  : list (OAuth2Client * string * option thrown) :=
  match tr with
  | [] => []
  | getToken_request auth code failure :: rest =>
      (auth, code, failure) :: exchanges rest
  | _ :: rest => exchanges rest
  end.

Fixpoint writes (tr : list event) : list (string * string * option thrown) :=
  match tr with
  | [] => []
  | file_write path content failure :: rest =>
      (path, content, failure) :: writes rest
  | _ :: rest => writes rest
  end.

(** ** The two halves of the interactive authorization *)

Section AuthorizeParts.

Context `{Host}.

(** Lines 69-81: the instructions printed before the code is asked for. *)
Definition instructions (auth : OAuth2Client) : list event :=
  let authUrl := generateAuthUrl auth in
  [console_log (nl ++ banner);
   console_log "🔐 Gmail API Authorization Required";
   console_log (banner ++ nl);
   console_log "1. Open this URL in your browser:";
   console_log ("   " ++ authUrl ++ nl);
   console_log "2. Sign in with your Google account";
   console_log ("3. Click " ++ dquote ++ "Allow" ++ dquote
                     ++ " to grant access" ++ nl);
   console_log
          "4. After authorization, you will be redirected to a page.";
   console_log
          "   Look at the URL in your browser - it will look like:";
   console_log ("   " ++ String_of (redirectUri auth)
                     ++ "?code=4/XXXXXXXXXXXXXXXXXXXXXXXXXXXXX" ++ nl);
   console_log
          ("5. Copy the ENTIRE code value (everything after " ++ dquote
           ++ "code=" ++ dquote ++ ")");
   console_log ("   and paste it below when prompted." ++ nl);
   console_log (banner ++ nl)].

(** Lines 105-110: the code is exchanged and the token saved. *)
Definition save_token (auth : OAuth2Client) (code : string)
  : M OAuth2Client :=
  tokens <- getToken auth code ;;
  let auth := setCredentials auth tokens in
  fs_writeFileSync "token.json" (JSON_stringify tokens) ;;;
  emit (console_log "Token stored to token.json") ;;;
  ret auth.

(** Lines 84-110: the code is obtained and exchanged, the token saved. *)
Definition exchange_code (auth : OAuth2Client) : M OAuth2Client :=
  AUTH_CODE <- env "AUTH_CODE" ;;
  code <- (if set_and_truthy AUTH_CODE then ret (or_empty AUTH_CODE)
           else
             answer <- question "Paste the authorization code here: " ;;
             let code := trim answer in
             if str_truthy code then ret code
             else
               throw (ErrorObj
                        "Authorization code is required. Please run again and provide the code.")) ;;
  tokens <- getToken auth code ;;
  let auth := setCredentials auth tokens in
  fs_writeFileSync "token.json" (JSON_stringify tokens) ;;;
  emit (console_log "Token stored to token.json") ;;;
  ret auth.

End AuthorizeParts.

(** ** Computations that leave no mark *)

Section Marks.

Context `{Host}.

(** A computation that only looks: no event, and the world as it was. *)
Definition silent {A : Type} (m : M A) : Prop :=
  forall w, final (m w) = w /\ trace (m w) = [].

(** A computation that never probes the profile. *)
Definition probeless {A : Type} (m : M A) : Prop :=
  forall w, probes (trace (m w)) = [].

(** A computation whose events all pass [p], and one with at most [n] events
    that pass [p]. *)
Definition emits_only {A : Type} (p : event -> bool) (m : M A) : Prop :=
  forall w, forallb p (trace (m w)) = true.

Definition at_most {A : Type} (n : nat) (p : event -> bool) (m : M A)
  : Prop :=
  forall w, List.length (filter p (trace (m w))) <= n.

(** A computation that only prints to the console and always completes. *)
Definition chatter (m : M unit) : Prop :=
  forall w, exists tr,
    m w = mkOutcome w tr (inr tt) /\ forallb is_log tr = true.

End Marks.

(** ** A small scripted host, for concrete runs *)

Module Script.

(** The world counts the remote calls made so far; the [k]-th call fails
    when [k] is in [bad].  The operator answers the prompt with a code
    between two spaces, which is all this [trim] has to drop. *)
Definition answer {A : Type} (bad : list nat) (k : nat) (a : A) : thrown + A :=
  if existsb (Nat.eqb k) bad then inl (ErrorObj "boom") else inr a.

Definition host (bad : list nat) (listed : option (list message))
  (files : list (string * string)) (vars : list (string * string))
  (token : value) : Host :=
  {| world := nat;
     messages_list := fun k _ _ => (S k, answer bad k listed);
     messages_get := fun k id => (S k, answer bad k (Some ("snippet of " ++ id)));
     messages_batchDelete := fun k _ => (S k, answer bad k tt);
     users_getProfile := fun k _ => (S k, answer bad k tt);
     auth_getToken := fun k _ _ => (S k, answer bad k token);
     existsSync := fun _ path => existsb (fun f => String.eqb (fst f) path) files;
     readFileSync := fun _ path =>
       match find (fun f => String.eqb (fst f) path) files with
       | Some f => inr (snd f)
       | None => inl (ErrorObj "ENOENT")
       end;
     writeFileSync := fun k _ _ => (k, inr tt);
     process_env := fun _ name =>
       option_map snd (find (fun v => String.eqb (fst v) name) vars);
     rl_question := fun k _ => (k, " 4/abc ");
     generateAuthUrl := fun _ => "https://accounts.example/auth";
     JSON_parse := fun text =>
       if String.eqb text "{}" then inr token else inl (ErrorObj "SyntaxError");
     JSON_stringify := fun _ => "{}";
     String_of := fun v => match v with VStr s => s | _ => "?" end;
     trim := fun s => substring 1 (String.length s - 2) s |}.

End Script.

(** ** The runs the examples below are about *)

Module Runs.

(** A mailbox service whose second call fails. *)
Definition flaky : Host := Script.host [1] None [] [] VNull.

(** A mailbox service that lists ten candidates and fails the third call,
    which is the metadata request for the second candidate. *)
Definition ten : list message :=
  map (fun k => mkMessage (Some ("m" ++ nat_to_string k))
                          (Some ("t" ++ nat_to_string k)))
      (seq 1 10).

Definition listing : Host := Script.host [2] (Some ten) [] [] VNull.

(** A machine with client credentials in the environment and a saved token,
    whose profile probe succeeds ([valid_token]) or fails
    ([expired_token]). *)
Definition saved : value := VObj [("access_token", VStr "ya29")].

Definition valid_token : Host :=
  Script.host [] None [("token.json", "{}")]
    [("CLIENT_ID", "id"); ("CLIENT_SECRET", "secret")] saved.

Definition expired_token : Host :=
  Script.host [0] None [("token.json", "{}")]
    [("CLIENT_ID", "id"); ("CLIENT_SECRET", "secret")] saved.

Definition by_sender : SearchConfig :=
  mkSearchConfig (Some ["spam@example.com"; "promos@example.com"]) None None.

Definition by_subject : SearchConfig :=
  mkSearchConfig (Some []) (Some ["Unsubscribe"; "Special Offer"]) None.

Definition by_both : SearchConfig :=
  mkSearchConfig (Some ["spam@example.com"]) (Some ["Promotion"]) None.

Definition with_maxResults (n : jsnum) : SearchConfig :=
  mkSearchConfig (Some ["spam@example.com"]) None (Some n).

Definition no_criteria : SearchConfig :=
  mkSearchConfig (Some []) None (Some (Num 500)).

Definition ids2500 : list string := map nat_to_string (seq 1 2500).

End Runs.

(** ** More machines and services, for the runs of the later sections *)

Module Stage.

(** Leading and trailing spaces dropped. *)
Fixpoint drop_spaces (s : string) : string :=
  match s with
  | String " " rest => drop_spaces rest
  | _ => s
  end.

Fixpoint reverse (s acc : string) : string :=
  match s with
  | EmptyString => acc
  | String c rest => reverse rest (String c acc)
  end.

Definition trim_spaces (s : string) : string :=
  reverse (drop_spaces (reverse (drop_spaces s) "")) "".

(** The host [h] with an operator who answers [answer], and a [trim] that
    drops spaces. *)
Definition operated (h : Host) (answer : string) : Host :=
  {| world := @world h;
     messages_list := @messages_list h;
     messages_get := @messages_get h;
     messages_batchDelete := @messages_batchDelete h;
     users_getProfile := @users_getProfile h;
     auth_getToken := @auth_getToken h;
     existsSync := @existsSync h;
     readFileSync := @readFileSync h;
     writeFileSync := @writeFileSync h;
     process_env := @process_env h;
     rl_question := fun k _ => (k, answer);
     generateAuthUrl := @generateAuthUrl h;
     JSON_parse := @JSON_parse h;
     JSON_stringify := @JSON_stringify h;
     String_of := @String_of h;
     trim := trim_spaces |}.

Definition client_vars : list (string * string) :=
  [("CLIENT_ID", "id"); ("CLIENT_SECRET", "secret")].

(** No credentials anywhere. *)
Definition bare : Host := Script.host [] None [] [] VNull.

(** A [credentials.json] that holds an empty object. *)
Definition empty_credentials : Host :=
  Script.host [] None [("credentials.json", "{}")] client_vars (VObj []).

(** A first run with the code in [AUTH_CODE]; the exchange succeeds
    ([first_run]) or fails ([refused]). *)
Definition first_run : Host :=
  Script.host [] None [] (("AUTH_CODE", "4/xyz") :: client_vars) Runs.saved.


(** A first run with an operator who types the code between spaces, and one
    who types only spaces. *)
Definition typed : Host :=
  operated (Script.host [] None [] client_vars Runs.saved) "  4/abc ".

Definition blank : Host :=
  operated (Script.host [] None [] client_vars Runs.saved) "   ".

(** A token file that is not JSON. *)
Definition garbled : Host :=
  Script.host [] None [("token.json", "garbage")] client_vars Runs.saved.

(** An expired token and the code in [AUTH_CODE]. *)
Definition expired : Host :=
  Script.host [0] None [("token.json", "{}")]
    (("AUTH_CODE", "4/xyz") :: client_vars) Runs.saved.

(** A service whose listing call fails, and one whose calls all fail. *)
Definition unlisted : Host := Script.host [0] None [] [] VNull.

Definition down : Host := Script.host [0; 1; 2] None [] [] VNull.

(** A machine with a valid token and a service that lists the ten
    candidates of [Runs.ten]; the metadata request for the second one
    fails. *)
Definition ready : Host :=
  operated
    (Script.host [3] (Some Runs.ten) [("token.json", "{}")] client_vars
       Runs.saved) "".

(** The same with no credentials at all. *)
Definition locked : Host :=
  operated (Script.host [] (Some Runs.ten) [] [] VNull) "".

(** A reader of leading decimal digits, [NaN] when there is none. *)
Fixpoint digits (s : string) (acc : option Z) : option Z :=
  match s with
  | String c rest =>
      let d := (Z.of_nat (nat_of_ascii c) - 48)%Z in
      if ((0 <=? d) && (d <=? 9))%Z then
        digits rest (Some (10 * match acc with Some a => a | None => 0 end + d)%Z)
      else acc
  | EmptyString => acc
  end.

Definition parseInt (s : string) : jsnum :=
  match digits s None with
  | Some z => Num z
  | None => NaN
  end.

End Stage.

(** * Properties *)

Section Properties.

Context `{Host}.

(** ** Traces of sequences *)

Lemma listings_app (a b : list event) :
  listings (a ++ b) = (listings a ++ listings b)%list.
Proof.
  induction a as [|e a IH]; [reflexivity|].
  destruct e; simpl; rewrite IH; reflexivity.
Qed.

Lemma fetches_app (a b : list event) :
  fetches (a ++ b) = (fetches a ++ fetches b)%list.
Proof.
  induction a as [|e a IH]; [reflexivity|].
  destruct e; simpl; rewrite IH; reflexivity.
Qed.

Lemma deletions_app (a b : list event) :
  deletions (a ++ b) = (deletions a ++ deletions b)%list.
Proof.
  induction a as [|e a IH]; [reflexivity|].
  destruct e; simpl; rewrite IH; reflexivity.
Qed.

Lemma error_lines_app (a b : list event) :
  error_lines (a ++ b) = (error_lines a ++ error_lines b)%list.
Proof.
  induction a as [|e a IH]; [reflexivity|].
  destruct e; simpl; rewrite IH; reflexivity.
Qed.

Lemma candidates_app (a b : list event) :
  candidates (a ++ b) = (candidates a ++ candidates b)%list.
Proof.
  induction a as [|e a IH]; [reflexivity|].
  destruct e as [| |q n [err|[ms|]]| | | | | |]; simpl; rewrite IH;
    try reflexivity.
  apply app_assoc.
Qed.

(** ** One turn of each loop *)

Lemma deleteBatch_ok (batch : list string) (r : CleanupResult)
  (w w' : world) :
  messages_batchDelete w batch = (w', inr tt) ->
  deleteBatch batch r w =
  mkOutcome w'
    [batchDelete_request batch None;
     console_log
       ("Deleted batch: " ++ nat_to_string (List.length batch)
        ++ " emails (" ++ nat_to_string (deleted r + List.length batch)
        ++ "/" ++ nat_to_string (totalFound r) ++ ")")]
    (inr (mkCleanupResult (totalFound r) (deleted r + List.length batch)
                          (errors r))).
Proof.
  intros E.
  unfold deleteBatch, try_catch, bind, users_messages_batchDelete, emit, ret.
  rewrite E. reflexivity.
Qed.

Lemma deleteBatch_failed (batch : list string) (r : CleanupResult)
  (w w' : world) (e : thrown) :
  messages_batchDelete w batch = (w', inl e) ->
  deleteBatch batch r w =
  mkOutcome w'
    [batchDelete_request batch (Some e);
     console_error ("Error deleting batch: " ++ error_text e) None]
    (inr (mkCleanupResult (totalFound r) (deleted r)
            (errors r
             ++ [("Error deleting batch: " ++ error_text e)%string])%list)).
Proof.
  intros E.
  unfold deleteBatch, try_catch, bind, users_messages_batchDelete, emit, ret.
  rewrite E. reflexivity.
Qed.

Lemma deleteLoop_step (messageIds : list string) (i : nat)
  (r : CleanupResult) :
  i < List.length messageIds ->
  deleteLoop messageIds i r =
  (r' <- deleteBatch (slice messageIds i (i + batchSize)) r ;;
   deleteLoop messageIds (i + batchSize) r').
Proof.
  intros Hi. rewrite deleteLoop_equation_1.
  destruct (lt_dec i (List.length messageIds)); [reflexivity | lia].
Qed.

Lemma deleteLoop_done (messageIds : list string) (i : nat)
  (r : CleanupResult) :
  List.length messageIds <= i ->
  deleteLoop messageIds i r = ret r.
Proof.
  intros Hi. rewrite deleteLoop_equation_1.
  destruct (lt_dec i (List.length messageIds)); [lia | reflexivity].
Qed.

(** ** The deletion loop as a whole *)

Lemma slice_length {A : Type} (l : list A) (a b : nat) :
  List.length (slice l a b) = Nat.min (b - a) (List.length l - a).
Proof.
  unfold slice. rewrite length_firstn, length_skipn. reflexivity.
Qed.

Lemma chunk_count_step (n i : nat) :
  i < n -> chunk_count (n - i) = S (chunk_count (n - (i + batchSize))).
Proof.
  unfold chunk_count, batchSize. intros Hi.
  destruct (le_lt_dec (i + 1000) n) as [Hle|Hlt].
  - replace (n - i + 999) with (n - (i + 1000) + 999 + 1 * 1000) by lia.
    rewrite Nat.div_add by lia. lia.
  - replace (n - (i + 1000)) with 0 by lia.
    rewrite (Nat.div_small (0 + 999)) by lia.
    symmetry. apply Nat.div_unique with (r := n - i - 1); lia.
Qed.

Lemma chunk_count_zero (n i : nat) : n <= i -> chunk_count (n - i) = 0.
Proof.
  intros Hi. unfold chunk_count. replace (n - i) with 0 by lia.
  apply Nat.div_small. lia.
Qed.

(** What the loop entered at index [i] does, whatever the service answers:
    the requests are the pieces of [batchSize] of the rest of the list, in
    order, and the result adds up the successes and collects the failures. *)
Lemma deleteLoop_summary (messageIds : list string) :
  forall (n i : nat) (r : CleanupResult) (w : world),
    List.length messageIds - i <= n ->
    let o := deleteLoop messageIds i r w in
    let d := deletions (trace o) in
    result o =
      inr (mkCleanupResult (totalFound r) (deleted r + deleted_count d)
                           (errors r ++ failure_messages d)%list)
    /\ map fst d =
       map (fun k => slice messageIds (i + k * batchSize)
                           (i + k * batchSize + batchSize))
           (seq 0 (chunk_count (List.length messageIds - i)))
    /\ List.concat (map fst d) = skipn i messageIds
    /\ listings (trace o) = [] /\ fetches (trace o) = [].
Proof.
  induction n as [|n IH]; intros i r w Hn.
  - cbv zeta. rewrite deleteLoop_done by lia.
    rewrite chunk_count_zero by lia.
    rewrite skipn_all2 by lia.
    unfold ret, deleted_count, total_size. cbn.
    rewrite Nat.add_0_r, app_nil_r. destruct r; auto.
  - destruct (le_lt_dec (List.length messageIds) i) as [Hdone|Hlt].
    + cbv zeta. rewrite deleteLoop_done by lia.
      rewrite chunk_count_zero by lia.
      rewrite skipn_all2 by lia.
      unfold ret, deleted_count, total_size. cbn.
      rewrite Nat.add_0_r, app_nil_r. destruct r; auto.
    + cbv zeta. rewrite deleteLoop_step by assumption.
      rewrite chunk_count_step by assumption.
      set (batch := slice messageIds i (i + batchSize)).
      assert (Hcat : (batch ++ skipn (i + batchSize) messageIds)%list
                     = skipn i messageIds).
      { unfold batch, slice.
        replace (i + batchSize - i) with batchSize by lia.
        rewrite Nat.add_comm, <- skipn_skipn. apply firstn_skipn. }
      assert (Hseq :
        forall c,
          map (fun k => slice messageIds (i + k * batchSize)
                              (i + k * batchSize + batchSize)) (seq 0 (S c))
          = batch ::
            map (fun k => slice messageIds (i + batchSize + k * batchSize)
                                (i + batchSize + k * batchSize + batchSize))
                (seq 0 c)).
      { intros c. cbn [seq map]. rewrite <- seq_shift, map_map.
        f_equal.
        - unfold batch. f_equal; lia.
        - apply map_ext. intros k. f_equal; lia. }
      destruct (messages_batchDelete w batch) as [w' [e|[]]] eqn:E.
      * unfold bind. rewrite (deleteBatch_failed _ _ _ _ _ E).
        cbn [result final trace].
        set (r' := mkCleanupResult _ _ _).
        specialize (IH (i + batchSize) r' w' ltac:(unfold batchSize; lia)).
        cbv zeta in IH. destruct IH as (IHr & IHm & IHc & IHl & IHf).
        cbv zeta. cbn [result final trace].
        rewrite deletions_app, listings_app, fetches_app.
        cbn [deletions listings fetches app map fst List.concat].
        rewrite IHr, IHc, IHm, IHl, IHf, Hseq, Hcat.
        repeat split.
        unfold r'. cbn [totalFound deleted errors failure_messages].
        unfold deleted_count. cbn [filter failed snd negb].
        fold (deleted_count (deletions (trace (deleteLoop messageIds (i + batchSize) r' w')))).
        rewrite <- app_assoc. reflexivity.
      * unfold bind. rewrite (deleteBatch_ok _ _ _ _ E).
        cbn [result final trace].
        set (r' := mkCleanupResult _ _ _).
        specialize (IH (i + batchSize) r' w' ltac:(unfold batchSize; lia)).
        cbv zeta in IH. destruct IH as (IHr & IHm & IHc & IHl & IHf).
        cbv zeta. cbn [result final trace].
        rewrite deletions_app, listings_app, fetches_app.
        cbn [deletions listings fetches app map fst List.concat].
        rewrite IHr, IHc, IHm, IHl, IHf, Hseq, Hcat.
        repeat split.
        unfold r'. cbn [totalFound deleted errors failure_messages].
        unfold deleted_count, total_size.
        cbn [filter failed snd negb map fst list_sum].
        f_equal. f_equal. unfold list_sum. cbn [fold_right]. lia.
Qed.

(** ** Counting over the deletion requests *)

Lemma total_size_concat (chunks : list (list string)) :
  total_size chunks = List.length (List.concat chunks).
Proof.
  unfold total_size.
  induction chunks as [|c chunks IH]; [reflexivity|].
  cbn [map List.concat]. rewrite length_app, <- IH. reflexivity.
Qed.

Lemma deleted_plus_failed (d : list (list string * option thrown)) :
  deleted_count d + total_size (map fst (filter failed d))
  = total_size (map fst d).
Proof.
  unfold deleted_count, total_size, list_sum.
  induction d as [|[c [e|]] d IH]; cbn in *; lia.
Qed.

Lemma failure_messages_length (d : list (list string * option thrown)) :
  List.length (failure_messages d) = List.length (filter failed d).
Proof.
  induction d as [|[c [e|]] d IH]; cbn in *; congruence.
Qed.

Lemma chunk_length (ids : list string) (k : nat) :
  List.length (chunk ids k)
  = Nat.min 1000 (List.length ids - k * 1000).
Proof.
  unfold chunk. rewrite slice_length. f_equal. lia.
Qed.

Lemma chunk_count_bounds (n : nat) :
  chunk_count n * 1000 < n + 1000 /\ n <= chunk_count n * 1000.
Proof.
  unfold chunk_count.
  pose proof (Nat.div_mod_eq (n + 999) 1000) as E.
  pose proof (Nat.mod_upper_bound (n + 999) 1000 ltac:(lia)) as B.
  lia.
Qed.

(** The whole run of [batchDeleteEmails] without [dryRun]. *)
Lemma batchDeleteEmails_summary (messageIds : list string) (w : world) :
  let o := batchDeleteEmails messageIds false w in
  let d := deletions (trace o) in
  result o =
    inr (mkCleanupResult (List.length messageIds) (deleted_count d)
                         (failure_messages d))
  /\ map fst d
     = map (chunk messageIds) (seq 0 (chunk_count (List.length messageIds)))
  /\ List.concat (map fst d) = messageIds.
Proof.
  cbv zeta. unfold batchDeleteEmails.
  destruct (deleteLoop_summary messageIds (List.length messageIds) 0
              (mkCleanupResult (List.length messageIds) 0 []) w
              ltac:(lia)) as (Hr & Hm & Hc & _).
  rewrite Nat.sub_0_r in Hm.
  repeat split; assumption.
Qed.

(** ** [batchDeleteEmails]: the claims *)

(** C1.  With [dryRun] set, [batchDeleteEmails] on [N] ids returns exactly
    [{totalFound: N, deleted: 0, errors: []}]; it issues no deletion request,
    makes no remote call at all, and leaves the world as it found it. *)
Theorem batchDeleteEmails_dry_run (messageIds : list string) (w : world) :
  let o := batchDeleteEmails messageIds true w in
  result o = inr (mkCleanupResult (List.length messageIds) 0 [])
  /\ deletions (trace o) = []
  /\ filter is_remote_call (trace o) = []
  /\ final o = w.
Proof.
  cbv zeta. unfold batchDeleteEmails, bind, emit, ret. cbn.
  repeat split.
Qed.

(** C2.  Without [dryRun], a non-empty list of ids is cut into consecutive
    chunks of at most 1000, input order kept, and one deletion request is
    issued per chunk, in that order: the [k]-th request carries the ids from
    position [1000 k] up to [1000 k + 1000], the requests put end to end give
    back the input, every request holds between 1 and 1000 ids and all but
    the last hold 1000.  For 2500 ids the requests hold 1000, 1000 and 500
    ids, and when the second one fails and the others succeed the result is
    [{totalFound: 2500, deleted: 1500, errors: [one message]}]. *)
Theorem batchDeleteEmails_chunks (messageIds : list string) (w : world) :
  messageIds <> [] ->
  let o := batchDeleteEmails messageIds false w in
  let requests := map fst (deletions (trace o)) in
  requests
  = map (fun k => slice messageIds (k * 1000) (k * 1000 + 1000))
        (seq 0 (chunk_count (List.length messageIds)))
  /\ requests <> []
  /\ List.concat requests = messageIds
  /\ Forall (fun c => 0 < List.length c <= 1000) requests
  /\ (forall k, S k < List.length requests ->
                List.length (nth k requests []) = 1000)
  /\ (List.length messageIds = 2500 ->
      map (@List.length string) requests = [1000; 1000; 500]
      /\ forall e,
           map snd (deletions (trace o)) = [None; Some e; None] ->
           result o =
           inr (mkCleanupResult 2500 1500
                  [("Error deleting batch: " ++ error_text e)%string])).
Proof.
  intros Hne. cbv zeta.
  destruct (batchDeleteEmails_summary messageIds w) as (Hr & Hm & Hc).
  cbv zeta in Hr, Hm, Hc.
  set (o := batchDeleteEmails messageIds false w) in *.
  set (d := deletions (trace o)) in *.
  set (n := List.length messageIds) in *.
  assert (Hn : 0 < n).
  { unfold n. destruct messageIds; [congruence | cbn; lia]. }
  pose proof (chunk_count_bounds n) as [Hlo Hhi].
  assert (Hlen : List.length (map fst d) = chunk_count n).
  { rewrite Hm, length_map, length_seq. reflexivity. }
  assert (Hnth : forall k, k < chunk_count n ->
                           nth k (map fst d) [] = chunk messageIds k).
  { intros k Hk. rewrite Hm.
    rewrite (nth_indep _ [] (chunk messageIds (chunk_count n)))
      by (rewrite length_map, length_seq; exact Hk).
    rewrite (map_nth (chunk messageIds)), seq_nth by exact Hk.
    reflexivity. }
  split; [exact Hm|].
  split.
  { intros E. rewrite E in Hlen. change (0 = chunk_count n) in Hlen. lia. }
  split; [exact Hc|].
  split.
  { rewrite Hm. apply Forall_forall. intros c Hin.
    apply in_map_iff in Hin. destruct Hin as (k & <- & Hk).
    apply in_seq in Hk. rewrite chunk_length. fold n. lia. }
  split.
  { intros k Hk. rewrite Hlen in Hk. rewrite Hnth by lia.
    rewrite chunk_length. fold n. lia. }
  intros H2500.
  assert (Hcount : chunk_count n = 3) by (rewrite H2500; reflexivity).
  rewrite Hcount in Hm. cbn [seq map] in Hm.
  split.
  { rewrite Hm. cbn [map]. rewrite !chunk_length. fold n.
    rewrite H2500. reflexivity. }
  intros e He. rewrite Hr. clear Hr.
  destruct d as [|[c0 f0] [|[c1 f1] [|[c2 f2] [|]]]]; try discriminate.
  cbn [map fst snd] in Hm, He.
  injection Hm as -> -> ->. injection He as -> -> ->.
  unfold deleted_count, total_size, list_sum.
  cbn [filter failed snd negb map fst fold_right failure_messages].
  rewrite !chunk_length. fold n. rewrite H2500. reflexivity.
Qed.

(** C9, amended.  Whatever the service answers, the result of
    [batchDeleteEmails] has [totalFound] equal to the number of ids,
    [deleted <= totalFound] and exactly one entry of [errors] per failed
    chunk.  Without [dryRun], [deleted] plus the combined size of the failed
    chunks equals [totalFound], so [errors = []] implies
    [deleted = totalFound].  With [dryRun] no chunk is sent, [deleted] is 0
    and [errors] is empty, whatever [totalFound] is. *)
Theorem batchDeleteEmails_accounting (messageIds : list string)
  (dryRun : bool) (w : world) :
  let o := batchDeleteEmails messageIds dryRun w in
  exists res,
    result o = inr res
    /\ totalFound res = List.length messageIds
    /\ deleted res <= totalFound res
    /\ List.length (errors res) = List.length (failed_chunks (trace o))
    /\ (dryRun = false ->
        deleted res + total_size (failed_chunks (trace o)) = totalFound res)
    /\ (dryRun = false -> errors res = [] -> deleted res = totalFound res)
    /\ (dryRun = true ->
        deletions (trace o) = [] /\ deleted res = 0 /\ errors res = []).
Proof.
  cbv zeta. destruct dryRun.
  - eexists. split; [reflexivity|]. cbn. repeat split; try lia; discriminate.
  - destruct (batchDeleteEmails_summary messageIds w) as (Hr & _ & Hc).
    cbv zeta in Hr, Hc.
    set (o := batchDeleteEmails messageIds false w) in *.
    set (d := deletions (trace o)) in *.
    pose proof (deleted_plus_failed d) as Hsum.
    rewrite (total_size_concat (map fst d)), Hc in Hsum.
    eexists. split; [exact Hr|].
    cbn [totalFound deleted errors]. unfold failed_chunks. fold d.
    rewrite length_map, failure_messages_length.
    repeat split; try lia; try discriminate.
    intros _ Hnil.
    assert (Hf : filter failed d = []).
    { apply length_zero_iff_nil. rewrite <- failure_messages_length, Hnil.
      reflexivity. }
    rewrite Hf in Hsum. cbn in Hsum. lia.
Qed.

(** ** The metadata loop *)

Lemma fetchMessage_skip (m : message) (acc : list EmailMatch) (w : world) :
  has_id m = false -> fetchMessage m acc w = mkOutcome w [] (inr acc).
Proof.
  unfold has_id, fetchMessage. destruct (message_id m) as [id|];
    [intros ->|]; reflexivity.
Qed.

Lemma fetchMessage_ok (m : message) (acc : list EmailMatch) (w w' : world)
  (snippet : option string) :
  has_id m = true ->
  messages_get w (or_empty (message_id m)) = (w', inr snippet) ->
  fetchMessage m acc w =
  mkOutcome w' [get_request (or_empty (message_id m)) (inr snippet)]
            (inr (acc ++ [match_of m snippet])%list).
Proof.
  unfold has_id, fetchMessage, match_of.
  destruct (message_id m) as [id|]; [|discriminate].
  intros -> E. cbn [or_empty] in *.
  unfold try_catch, bind, users_messages_get, ret. rewrite E. reflexivity.
Qed.

Lemma fetchMessage_failed (m : message) (acc : list EmailMatch)
  (w w' : world) (e : thrown) :
  has_id m = true ->
  messages_get w (or_empty (message_id m)) = (w', inl e) ->
  fetchMessage m acc w =
  mkOutcome w'
    [get_request (or_empty (message_id m)) (inl e);
     console_error
       ("Error fetching message " ++ or_empty (message_id m) ++ ":") (Some e)]
    (inr acc).
Proof.
  unfold has_id, fetchMessage.
  destruct (message_id m) as [id|]; [|discriminate].
  intros -> E. cbn [or_empty] in *.
  unfold try_catch, bind, users_messages_get, emit, ret. rewrite E.
  reflexivity.
Qed.

(** What the loop over the candidates does, whatever the service answers:
    one request per candidate that has an id, in listing order; a match per
    answered request, appended in that order; an error line per rejected
    request; and the loop itself never throws. *)
Lemma fetchLoop_summary (ms : list message) :
  forall (acc : list EmailMatch) (w : world),
    let o := fetchLoop ms acc w in
    let f := fetches (trace o) in
    result o = inr (acc ++ matches_of (filter has_id ms) (map snd f))%list
    /\ map fst f = map (fun m => or_empty (message_id m)) (filter has_id ms)
    /\ error_lines (trace o)
       = map (fun r => (("Error fetching message " ++ fst r ++ ":")%string,
                        failure_of (snd r)))
             (filter rejected f)
    /\ listings (trace o) = [] /\ candidates (trace o) = []
    /\ deletions (trace o) = [].
Proof.
  induction ms as [|m ms IH]; intros acc w; cbv zeta.
  - cbn. rewrite app_nil_r. auto 6.
  - cbn [fetchLoop filter]. unfold bind.
    destruct (has_id m) eqn:Hid.
    + destruct (messages_get w (or_empty (message_id m)))
        as [w' [e|snippet]] eqn:E.
      * rewrite (fetchMessage_failed _ _ _ _ _ Hid E).
        cbn [result final trace].
        destruct (IH acc w') as (IHr & IHm & IHe & IHl & IHc & IHd).
        rewrite fetches_app, error_lines_app, listings_app, candidates_app,
          deletions_app.
        cbn [fetches error_lines listings candidates deletions app map fst snd
             filter rejected matches_of failure_of].
        rewrite IHr, IHm, IHe, IHl, IHc, IHd. auto 6.
      * rewrite (fetchMessage_ok _ _ _ _ _ Hid E).
        cbn [result final trace].
        destruct (IH (acc ++ [match_of m snippet])%list w')
          as (IHr & IHm & IHe & IHl & IHc & IHd).
        rewrite fetches_app, error_lines_app, listings_app, candidates_app,
          deletions_app.
        cbn [fetches error_lines listings candidates deletions app map fst snd
             filter rejected matches_of failure_of].
        rewrite IHr, IHm, IHe, IHl, IHc, IHd, <- app_assoc. auto 6.
    + rewrite (fetchMessage_skip _ _ _ Hid). cbn [result final trace app].
      apply IH.
Qed.

Lemma matches_of_length (ms : list message)
  (f : list (string * (thrown + option string))) :
  List.length f = List.length ms ->
  List.length (matches_of ms (map snd f)) + List.length (filter rejected f)
  = List.length ms.
Proof.
  revert f. induction ms as [|m ms IH]; intros [|[id [e|sn]] f] Hlen;
    try discriminate; [reflexivity| |];
    cbn in Hlen; injection Hlen as Hlen; specialize (IH f Hlen);
    cbn [map snd matches_of filter rejected List.length]; lia.
Qed.

Lemma matches_of_ids (ms : list message)
  (f : list (string * (thrown + option string))) :
  map fst f = map (fun m => or_empty (message_id m)) ms ->
  map id (matches_of ms (map snd f))
  = map fst (filter (fun r => negb (rejected r)) f).
Proof.
  revert f. induction ms as [|m ms IH]; intros [|[i [e|sn]] f] Hids;
    try discriminate; [reflexivity| |];
    cbn [map fst] in Hids; injection Hids as Hi Hids; specialize (IH f Hids);
    cbn [map fst snd matches_of filter rejected negb match_of id];
    congruence.
Qed.

Lemma subsequence_refl {A : Type} (l : list A) : subsequence l l.
Proof. induction l; constructor; assumption. Qed.

Lemma subsequence_filter_map {A B : Type} (g : A -> B) (p : A -> bool)
  (l : list A) :
  subsequence (map g (filter p l)) (map g l).
Proof.
  induction l as [|a l IH]; [constructor|].
  cbn [filter map]. destruct (p a); constructor; assumption.
Qed.

Lemma subsequence_trans {A : Type} (xs ys zs : list A) :
  subsequence xs ys -> subsequence ys zs -> subsequence xs zs.
Proof.
  intros Hxy Hyz. revert xs Hxy.
  induction Hyz as [|y ys zs Hyz IH|z ys zs Hyz IH]; intros xs Hxy.
  - assumption.
  - inversion Hxy; subst.
    + constructor. apply IH. assumption.
    + apply subsequence_drop. apply IH. assumption.
  - apply subsequence_drop. apply IH. assumption.
Qed.

(** ** [searchEmails] as a whole *)

Lemma present_entries (given : option (list string)) :
  present given = false -> entries given = [].
Proof.
  destruct given as [[|a l]|]; [reflexivity|discriminate|reflexivity].
Qed.

Lemma build_queryParts_nil (config : SearchConfig) :
  build_queryParts config = [] <->
  present (senders config) = false /\ present (subjects config) = false.
Proof.
  unfold build_queryParts.
  destruct (present (senders config)), (present (subjects config)); cbn;
    split; try discriminate; try tauto; intros [? ?]; discriminate.
Qed.

Lemma searchEmails_invalid (config : SearchConfig) (w : world) :
  build_queryParts config = [] ->
  searchEmails config w =
  mkOutcome w []
    (inl (ErrorObj "At least one sender or subject must be specified")).
Proof.
  intros E. unfold searchEmails. rewrite E. reflexivity.
Qed.

Lemma searchEmails_rejected (config : SearchConfig) (w w1 : world)
  (e : thrown) :
  build_queryParts config <> [] ->
  let q := join " AND " (build_queryParts config) in
  let n := Math_min (maxResults_or_default config) (Num 500) in
  messages_list w q n = (w1, inl e) ->
  searchEmails config w =
  mkOutcome w1
    [console_log ("Searching for emails with query: " ++ q);
     console_log ("Max results: "
                  ++ num_to_string (maxResults_or_default config));
     list_request q n (inl e)]
    (inl e).
Proof.
  intros Hne q n E. unfold searchEmails.
  destruct (build_queryParts config) as [|part parts] eqn:Hparts;
    [congruence|].
  cbn [List.length Nat.eqb].
  unfold bind, emit, users_messages_list. cbn [result final trace].
  fold q n. rewrite E. reflexivity.
Qed.

Lemma searchEmails_answered (config : SearchConfig) (w w1 : world)
  (response : option (list message)) :
  build_queryParts config <> [] ->
  let q := join " AND " (build_queryParts config) in
  let n := Math_min (maxResults_or_default config) (Num 500) in
  messages_list w q n = (w1, inr response) ->
  let o' := fetchLoop (listed response) [] w1 in
  searchEmails config w =
  mkOutcome (final o')
    ([console_log ("Searching for emails with query: " ++ q);
      console_log ("Max results: "
                   ++ num_to_string (maxResults_or_default config));
      list_request q n (inr response)] ++ trace o')%list
    (result o').
Proof.
  intros Hne q n E. unfold searchEmails.
  destruct (build_queryParts config) as [|part parts] eqn:Hparts;
    [congruence|].
  cbn [List.length Nat.eqb].
  unfold bind, emit, users_messages_list. cbn [result final trace].
  fold q n. rewrite E. reflexivity.
Qed.

(** A run that takes the search criteria issues exactly one listing
    request, with the query and the capped [maxResults]. *)
Lemma searchEmails_listings (config : SearchConfig) (w : world) :
  build_queryParts config <> [] ->
  listings (trace (searchEmails config w)) =
  [(join " AND " (build_queryParts config),
    Math_min (maxResults_or_default config) (Num 500))].
Proof.
  intros Hne.
  destruct (messages_list w (join " AND " (build_queryParts config))
              (Math_min (maxResults_or_default config) (Num 500)))
    as [w1 [e|response]] eqn:E.
  - rewrite (searchEmails_rejected _ _ _ _ Hne E). reflexivity.
  - rewrite (searchEmails_answered _ _ _ _ Hne E). cbn [trace].
    rewrite listings_app.
    destruct (fetchLoop_summary (listed response) [] w1)
      as (_ & _ & _ & Hl & _).
    rewrite Hl. reflexivity.
Qed.

Lemma searchEmails_listings_inv (config : SearchConfig) (w : world)
  (q : string) (n : jsnum) :
  listings (trace (searchEmails config w)) = [(q, n)] ->
  build_queryParts config <> []
  /\ q = join " AND " (build_queryParts config)
  /\ n = Math_min (maxResults_or_default config) (Num 500).
Proof.
  intros Hl.
  destruct (build_queryParts config) as [|part parts] eqn:Hparts.
  - rewrite (searchEmails_invalid _ _ Hparts) in Hl. discriminate.
  - assert (Hne : build_queryParts config <> []) by congruence.
    rewrite (searchEmails_listings _ w Hne) in Hl.
    rewrite <- Hparts. injection Hl as <- <-. auto.
Qed.

Lemma maxResults_cap (config : SearchConfig) :
  exists k, Math_min (maxResults_or_default config) (Num 500) = Num k
            /\ (k <= 500)%Z.
Proof.
  unfold maxResults_or_default.
  destruct (maxResults config) as [[z|]|]; cbn.
  - destruct (Z.eqb z 0); cbn; eexists; split; try reflexivity; lia.
  - exists 500%Z. split; [reflexivity | lia].
  - exists 500%Z. split; [reflexivity | lia].
Qed.

End Properties.

(** ** Where a piece of text can occur in a query *)

Lemma prefix_before_separator (p x y : string) (c : ascii) :
  has_char c p = false -> prefix p (x ++ String c y) = prefix p x.
Proof.
  revert p. induction x as [|b x IH]; intros [|a p] Hc; try reflexivity.
  - cbn in Hc. apply orb_false_iff in Hc. destruct Hc as [Hac _].
    apply Ascii.eqb_neq in Hac. cbn.
    destruct (ascii_dec a c); [contradiction | reflexivity].
  - cbn in Hc. apply orb_false_iff in Hc. destruct Hc as [_ Hp].
    cbn. destruct (ascii_dec a b); [apply IH; exact Hp | reflexivity].
Qed.

Lemma occurs_empty (a : ascii) (p : string) :
  occurs (String a p) "" = false.
Proof. reflexivity. Qed.

(** A piece of text free of the character [c] cannot lie across [c]. *)
Lemma occurs_across_separator (a : ascii) (p x y : string) (c : ascii) :
  has_char c (String a p) = false ->
  occurs (String a p) (x ++ String c y)
  = occurs (String a p) x || occurs (String a p) y.
Proof.
  intros Hc. induction x as [|b x IH].
  - pose proof (prefix_before_separator (String a p) "" y c Hc) as P.
    cbn [append] in *. cbn [occurs]. rewrite P. reflexivity.
  - pose proof (prefix_before_separator (String a p) (String b x) y c Hc)
      as P.
    cbn [append] in *. cbn [occurs]. rewrite IH, P. apply orb_assoc.
Qed.

(** A piece of text cannot start inside text that lacks its first
    character. *)
Lemma occurs_after_prefix (a : ascii) (p x y : string) :
  has_char a x = false ->
  occurs (String a p) (x ++ y) = occurs (String a p) y.
Proof.
  induction x as [|b x IH]; intros Ha; [reflexivity|].
  cbn in Ha. apply orb_false_iff in Ha. destruct Ha as [Hba Hx].
  apply Ascii.eqb_neq in Hba.
  change (String b x ++ y) with (String b (x ++ y)).
  cbn [occurs prefix]. rewrite (IH Hx).
  destruct (ascii_dec a b); [congruence | reflexivity].
Qed.

Lemma occurs_join_OR (a : ascii) (p : string) (terms : list string) :
  has_char " " (String a p) = false ->
  has_char a "OR " = false ->
  Forall (fun t => occurs (String a p) t = false) terms ->
  occurs (String a p) (join " OR " terms) = false.
Proof.
  intros Hsp Hor Hterms.
  induction Hterms as [|t terms Ht _ IH]; [reflexivity|].
  destruct terms as [|t' terms]; [exact Ht|].
  change (join " OR " (t :: t' :: terms))
    with (t ++ String " " ("OR " ++ join " OR " (t' :: terms))).
  rewrite (occurs_across_separator a p t _ " " Hsp), Ht.
  rewrite (occurs_after_prefix a p "OR " _ Hor). exact IH.
Qed.

Lemma occurs_or_group (a : ascii) (p : string) (terms : list string) :
  has_char " " (String a p) = false ->
  has_char ")" (String a p) = false ->
  has_char a "(OR " = false ->
  Forall (fun t => occurs (String a p) t = false) terms ->
  occurs (String a p) (or_group terms) = false.
Proof.
  intros Hsp Hcl Hor Hterms. unfold or_group.
  change (Ascii.eqb "(" a || has_char a "OR " = false) in Hor.
  apply orb_false_iff in Hor. destruct Hor as [Hpar Hor'].
  assert (Hopen : has_char a "(" = false).
  { cbn [has_char]. rewrite Hpar. reflexivity. }
  rewrite (occurs_after_prefix a p "(" _ Hopen).
  rewrite (occurs_across_separator a p _ "" ")" Hcl).
  rewrite (occurs_join_OR a p terms Hsp Hor' Hterms). reflexivity.
Qed.

Lemma from_terms_without_subject (addresses : list string) :
  Forall (fun address => occurs "subject:" address = false) addresses ->
  occurs "subject:" (or_group (map from_term addresses)) = false.
Proof.
  intros Hfree. apply occurs_or_group; try reflexivity.
  apply Forall_map. eapply Forall_impl; [|exact Hfree].
  intros address Ha. unfold from_term.
  rewrite (occurs_after_prefix "s" "ubject:" "from:" address eq_refl).
  exact Ha.
Qed.

Lemma subject_terms_without_from (texts : list string) :
  Forall (fun text => occurs "from:" text = false) texts ->
  occurs "from:" (or_group (map subject_term texts)) = false.
Proof.
  intros Hfree. apply occurs_or_group; try reflexivity.
  apply Forall_map. eapply Forall_impl; [|exact Hfree].
  intros text Ht. unfold subject_term.
  rewrite (occurs_after_prefix "f" "rom:" "subject:" _ eq_refl).
  unfold dquote.
  rewrite (occurs_after_prefix "f" "rom:" (String "034" "") _ eq_refl).
  rewrite (occurs_across_separator "f" "rom:" text "" "034" eq_refl).
  rewrite Ht. reflexivity.
Qed.

(** ** [searchEmails]: the claims *)

Section SearchClaims.

Context `{Host}.

(** C3, amended.  The query sent by [searchEmails]: with senders only, a
    parenthesized OR-group of [from:<address>] terms and nothing else, which
    holds no [subject:] text provided no address itself holds it; with
    subjects only, a parenthesized OR-group of quoted [subject:"<text>"]
    terms and nothing else, which holds no [from:] text provided no subject
    itself holds it; with both, the two groups joined by [AND].  Addresses
    and subjects go into the query as they are. *)
Theorem searchEmails_query (config : SearchConfig) (w : world) :
  let sent := map fst (listings (trace (searchEmails config w))) in
  let from_group :=
    "(" ++ join " OR " (map (fun address => "from:" ++ address)
                            (entries (senders config))) ++ ")" in
  let subject_group :=
    "(" ++ join " OR " (map (fun text => "subject:" ++ dquote ++ text ++ dquote)
                            (entries (subjects config))) ++ ")" in
  (present (senders config) = true -> present (subjects config) = false ->
   sent = [from_group]
   /\ (Forall (fun address => occurs "subject:" address = false)
              (entries (senders config)) ->
       occurs "subject:" from_group = false))
  /\ (present (senders config) = false -> present (subjects config) = true ->
      sent = [subject_group]
      /\ (Forall (fun text => occurs "from:" text = false)
                 (entries (subjects config)) ->
          occurs "from:" subject_group = false))
  /\ (present (senders config) = true -> present (subjects config) = true ->
      sent = [from_group ++ " AND " ++ subject_group]).
Proof.
  cbv zeta.
  assert (Hsent : forall parts,
            build_queryParts config = parts -> parts <> [] ->
            map fst (listings (trace (searchEmails config w)))
            = [join " AND " parts]).
  { intros parts <- Hne. rewrite (searchEmails_listings _ _ Hne).
    reflexivity. }
  split; [|split].
  - intros Hs Hj. split; [|apply from_terms_without_subject].
    rewrite (Hsent [or_group (map from_term (entries (senders config)))]);
      [reflexivity | | discriminate].
    unfold build_queryParts. rewrite Hs, Hj. reflexivity.
  - intros Hs Hj. split; [|apply subject_terms_without_from].
    rewrite (Hsent [or_group (map subject_term (entries (subjects config)))]);
      [reflexivity | | discriminate].
    unfold build_queryParts. rewrite Hs, Hj. reflexivity.
  - intros Hs Hj.
    rewrite (Hsent [or_group (map from_term (entries (senders config)));
                    or_group (map subject_term (entries (subjects config)))]);
      [reflexivity | | discriminate].
    unfold build_queryParts. rewrite Hs, Hj. reflexivity.
Qed.

(** C4.  [maxResults] in the listing request: 500 when the caller gives
    none, never more than 500 whatever the caller gives, and 500 for a
    caller input of 1000. *)
Theorem searchEmails_maxResults_cap (config : SearchConfig) (w : world) :
  present (senders config) || present (subjects config) = true ->
  exists q k,
    listings (trace (searchEmails config w)) = [(q, Num k)]
    /\ (k <= 500)%Z
    /\ (maxResults config = None -> k = 500%Z)
    /\ (maxResults config = Some (Num 1000) -> k = 500%Z)
    /\ (forall z, maxResults config = Some (Num z) -> z <> 0%Z ->
                  k = Z.min z 500).
Proof.
  intros Hvalid.
  assert (Hne : build_queryParts config <> []).
  { intros E. apply build_queryParts_nil in E. destruct E as [E1 E2].
    rewrite E1, E2 in Hvalid. discriminate. }
  destruct (maxResults_cap config) as (k & Hk & Hle).
  exists (join " AND " (build_queryParts config)), k.
  rewrite (searchEmails_listings _ _ Hne), Hk.
  split; [reflexivity|]. split; [exact Hle|].
  unfold maxResults_or_default in Hk.
  repeat split.
  - intros E. rewrite E in Hk. cbn in Hk. congruence.
  - intros E. rewrite E in Hk. cbn in Hk. congruence.
  - intros z E Hz. rewrite E in Hk. cbn [num_truthy] in Hk.
    apply Z.eqb_neq in Hz. rewrite Hz in Hk. cbn in Hk. congruence.
Qed.

(** C10.  A caller input of [maxResults = 0] is replaced by the default:
    the listing request carries 500 and the console says so; the same holds
    for every falsy input. *)
Theorem searchEmails_maxResults_zero (config : SearchConfig) (w : world)
  (n : jsnum) :
  present (senders config) || present (subjects config) = true ->
  maxResults config = Some n ->
  n = Num 0 \/ num_truthy n = false ->
  exists q,
    listings (trace (searchEmails config w)) = [(q, Num 500)]
    /\ In (console_log "Max results: 500") (trace (searchEmails config w)).
Proof.
  intros Hvalid Hn Hfalsy.
  assert (Hf : num_truthy n = false).
  { destruct Hfalsy as [->|Hf]; [reflexivity | exact Hf]. }
  assert (Hne : build_queryParts config <> []).
  { intros E. apply build_queryParts_nil in E. destruct E as [E1 E2].
    rewrite E1, E2 in Hvalid. discriminate. }
  assert (Hd : maxResults_or_default config = Num 500).
  { unfold maxResults_or_default. rewrite Hn, Hf. reflexivity. }
  exists (join " AND " (build_queryParts config)).
  split.
  - rewrite (searchEmails_listings _ _ Hne), Hd. reflexivity.
  - destruct (messages_list w (join " AND " (build_queryParts config))
                (Math_min (maxResults_or_default config) (Num 500)))
      as [w1 [e|response]] eqn:E.
    + rewrite (searchEmails_rejected _ _ _ _ Hne E), Hd.
      right. left. reflexivity.
    + rewrite (searchEmails_answered _ _ _ _ Hne E), Hd.
      right. left. reflexivity.
Qed.

(** C6.  With neither a non-empty list of senders nor a non-empty list of
    subjects, [searchEmails] throws the validation error at once: nothing is
    printed, no call is made and the world is untouched. *)
Theorem searchEmails_requires_criteria (config : SearchConfig) (w : world) :
  present (senders config) = false ->
  present (subjects config) = false ->
  searchEmails config w =
  mkOutcome w []
    (inl (ErrorObj "At least one sender or subject must be specified")).
Proof.
  intros Hs Hj. apply searchEmails_invalid.
  apply build_queryParts_nil. split; assumption.
Qed.

(** C5.  When the listing call returns candidates of which [N] carry an id
    (all of them, when every entry has one) and the metadata request fails
    for exactly one of these, [searchEmails] still returns, with exactly
    [N - 1] matches: all [N] metadata requests are made, and the one failure
    is written to the error stream with its cause. *)
Theorem searchEmails_one_fetch_failure (config : SearchConfig)
  (w w1 : world) (q : string) (n : jsnum) (messages : list message) :
  let o := searchEmails config w in
  let N := List.length (filter has_id messages) in
  listings (trace o) = [(q, n)] ->
  messages_list w q n = (w1, inr (Some messages)) ->
  List.length (filter rejected (fetches (trace o))) = 1 ->
  exists matches,
    result o = inr matches
    /\ List.length matches = N - 1
    /\ 1 <= N
    /\ List.length (fetches (trace o)) = N
    /\ (Forall (fun m => has_id m = true) messages ->
        N = List.length messages)
    /\ exists id e,
         In (id, inl e) (fetches (trace o))
         /\ error_lines (trace o)
            = [(("Error fetching message " ++ id ++ ":")%string, Some e)].
Proof.
  cbv zeta. intros Hl E Hone.
  apply searchEmails_listings_inv in Hl. destruct Hl as (Hne & -> & ->).
  rewrite (searchEmails_answered _ _ _ _ Hne E) in *.
  cbn [result trace listed] in *.
  rewrite fetches_app, error_lines_app in *.
  cbn [fetches error_lines app] in *.
  destruct (fetchLoop_summary messages [] w1) as (Hr & Hm & He & _).
  cbv zeta in Hr, Hm, He.
  set (f := fetches (trace (fetchLoop messages [] w1))) in *.
  assert (Hlen : List.length f = List.length (filter has_id messages)).
  { rewrite <- (length_map fst f), Hm, length_map. reflexivity. }
  pose proof (matches_of_length _ f Hlen) as Hcount.
  exists (matches_of (filter has_id messages) (map snd f)).
  split; [exact Hr|].
  split; [lia|]. split; [lia|]. split; [exact Hlen|].
  split.
  { intros Hids. f_equal. clear -Hids.
    induction Hids as [|m ms Hm _ IH]; [reflexivity|].
    cbn. rewrite Hm, IH. reflexivity. }
  rewrite He.
  destruct (filter rejected f) as [|[id [e|sn]] [|]] eqn:Hf;
    try discriminate.
  - exists id, e. split; [|reflexivity].
    assert (Hin : In (id, inl e : thrown + option string) (filter rejected f))
      by (rewrite Hf; left; reflexivity).
    apply filter_In in Hin. tauto.
  - assert (Hin : In (id, inr sn : thrown + option string)
                     (filter rejected f))
      by (rewrite Hf; left; reflexivity).
    apply filter_In in Hin. destruct Hin as [_ Hrej]. discriminate.
Qed.

(** C8.  When the listing call answers, [searchEmails] returns the matches
    in listing order: metadata requests go out for the candidates that have
    an id, in the order listed, and the matches are those of the answered
    requests, in that same order, so their ids are a subsequence of the
    listed ids. *)
Theorem searchEmails_listing_order (config : SearchConfig) (w w1 : world)
  (q : string) (n : jsnum) (response : option (list message)) :
  let o := searchEmails config w in
  listings (trace o) = [(q, n)] ->
  messages_list w q n = (w1, inr response) ->
  exists matches,
    result o = inr matches
    /\ candidates (trace o) = listed response
    /\ map fst (fetches (trace o))
       = map (fun m => or_empty (message_id m))
             (filter has_id (listed response))
    /\ matches
       = matches_of (filter has_id (listed response))
                    (map snd (fetches (trace o)))
    /\ map id matches
       = map fst (filter (fun r => negb (rejected r)) (fetches (trace o)))
    /\ subsequence (map id matches)
                   (map (fun m => or_empty (message_id m)) (listed response)).
Proof.
  cbv zeta. intros Hl E.
  apply searchEmails_listings_inv in Hl. destruct Hl as (Hne & -> & ->).
  rewrite (searchEmails_answered _ _ _ _ Hne E).
  cbn [result trace].
  rewrite fetches_app, candidates_app.
  destruct (fetchLoop_summary (listed response) [] w1)
    as (Hr & Hm & _ & _ & Hc & _).
  cbv zeta in Hr, Hm, Hc.
  set (f := fetches (trace (fetchLoop (listed response) [] w1))) in *.
  exists (matches_of (filter has_id (listed response)) (map snd f)).
  assert (Hcand :
    candidates
      [console_log
         ("Searching for emails with query: "
          ++ join " AND " (build_queryParts config));
       console_log
         ("Max results: " ++ num_to_string (maxResults_or_default config));
       list_request (join " AND " (build_queryParts config))
         (Math_min (maxResults_or_default config) (Num 500))
         (inr response)]
    = listed response).
  { destruct response; cbn; [apply app_nil_r | reflexivity]. }
  rewrite Hcand, Hc, app_nil_r. cbn [fetches app].
  pose proof (matches_of_ids _ f Hm) as Hids.
  repeat split; try assumption.
  rewrite Hids, <- (matches_of_ids _ f Hm).
  rewrite (matches_of_ids _ f Hm).
  eapply subsequence_trans;
    [|apply (subsequence_filter_map
               (fun m => or_empty (message_id m)) has_id)].
  rewrite <- Hm. apply (subsequence_filter_map fst).
Qed.

End SearchClaims.

(** ** [authenticate]: the claim *)

Section AuthClaims.

Context `{Host}.

Lemma silent_ret {A : Type} (a : A) : silent (ret a).
Proof. intros w. split; reflexivity. Qed.

Lemma silent_throw {A : Type} (e : thrown) : silent (throw (A := A) e).
Proof. intros w. split; reflexivity. Qed.

Lemma silent_lift {A : Type} (r : thrown + A) : silent (lift r).
Proof. intros w. split; reflexivity. Qed.

Lemma silent_existsSync (path : string) : silent (fs_existsSync path).
Proof. intros w. split; reflexivity. Qed.

Lemma silent_readFileSync (path : string) : silent (fs_readFileSync path).
Proof. intros w. split; reflexivity. Qed.

Lemma silent_env (name : string) : silent (env name).
Proof. intros w. split; reflexivity. Qed.

Lemma silent_bind {A B : Type} (m : M A) (k : A -> M B) :
  silent m -> (forall a, silent (k a)) -> silent (bind m k).
Proof.
  intros Hm Hk w. unfold bind. destruct (Hm w) as [Hf Ht].
  destruct (result (m w)) as [e|a]; cbn [final trace].
  - split; assumption.
  - destruct (Hk a (final (m w))) as [Hf' Ht'].
    rewrite Hf', Ht, Ht', Hf. split; reflexivity.
Qed.

Ltac silent_step :=
  match goal with
  | |- silent (bind _ _) => apply silent_bind; [|intros ?]
  | |- silent (if ?b then _ else _) => destruct b
  | |- silent (ret _) => apply silent_ret
  | |- silent (throw _) => apply silent_throw
  | |- silent (lift _) => apply silent_lift
  | |- silent (fs_existsSync _) => apply silent_existsSync
  | |- silent (fs_readFileSync _) => apply silent_readFileSync
  | |- silent (env _) => apply silent_env
  end.

(** Resolving the client credentials reads files and variables only. *)
Lemma resolve_credentials_silent : silent resolve_credentials.
Proof. unfold resolve_credentials. repeat silent_step. Qed.

(** The trace of a sequence, piece by piece. *)
Lemma trace_bind {A B : Type} (m : M A) (k : A -> M B) (w : world) :
  trace (bind m k w) =
  (trace (m w) ++
   match result (m w) with
   | inl _ => []
   | inr a => trace (k a (final (m w)))
   end)%list.
Proof.
  unfold bind. destruct (result (m w)); cbn [trace];
    [rewrite app_nil_r|]; reflexivity.
Qed.

Lemma trace_emit_then {A : Type} (e : event) (k : unit -> M A) (w : world) :
  trace (bind (emit e) k w) = e :: trace (k tt w).
Proof. reflexivity. Qed.

(** The interactive authorization starts by printing the authorization
    URL. *)
Lemma authorize_prints_url (auth : OAuth2Client) (w : world) :
  In ("   " ++ generateAuthUrl auth ++ nl)%string
     (logged (trace (authorize auth w))).
Proof.
  unfold authorize. cbv zeta.
  do 4 (rewrite trace_emit_then; cbn [logged]; right).
  rewrite trace_emit_then. cbn [logged]. left. reflexivity.
Qed.

Lemma probes_app (a b : list event) :
  probes (a ++ b) = (probes a ++ probes b)%list.
Proof.
  induction a as [|e a IH]; [reflexivity|].
  destruct e; simpl; rewrite IH; reflexivity.
Qed.

Lemma logged_app (a b : list event) :
  logged (a ++ b) = (logged a ++ logged b)%list.
Proof.
  induction a as [|e a IH]; [reflexivity|].
  destruct e; simpl; rewrite IH; reflexivity.
Qed.

Lemma probeless_bind {A B : Type} (m : M A) (k : A -> M B) :
  probeless m -> (forall a, probeless (k a)) -> probeless (bind m k).
Proof.
  intros Hm Hk w. rewrite trace_bind, probes_app, Hm.
  destruct (result (m w)) as [e|a]; [reflexivity | apply Hk].
Qed.

Lemma probeless_silent {A : Type} (m : M A) : silent m -> probeless m.
Proof. intros Hm w. destruct (Hm w) as [_ ->]. reflexivity. Qed.

Lemma probeless_log (line : string) : probeless (emit (console_log line)).
Proof. intros w. reflexivity. Qed.

Lemma probeless_question (text : string) : probeless (question text).
Proof.
  intros w. unfold question. destruct (rl_question w text). reflexivity.
Qed.

Lemma probeless_getToken (auth : OAuth2Client) (code : string) :
  probeless (getToken auth code).
Proof.
  intros w. unfold getToken. destruct (auth_getToken w auth code).
  reflexivity.
Qed.

Lemma probeless_writeFileSync (path content : string) :
  probeless (fs_writeFileSync path content).
Proof.
  intros w. unfold fs_writeFileSync. destruct (writeFileSync w path content).
  reflexivity.
Qed.

Ltac probeless_step :=
  match goal with
  | |- probeless (bind _ _) => apply probeless_bind; [|intros ?]
  | |- probeless (if ?b then _ else _) => destruct b
  | |- probeless (emit (console_log _)) => apply probeless_log
  | |- probeless (question _) => apply probeless_question
  | |- probeless (getToken _ _) => apply probeless_getToken
  | |- probeless (fs_writeFileSync _ _) => apply probeless_writeFileSync
  | |- probeless (env _) => apply probeless_silent, silent_env
  | |- probeless (ret _) => apply probeless_silent, silent_ret
  | |- probeless (throw _) => apply probeless_silent, silent_throw
  end.

(** The interactive authorization never probes the profile. *)
Lemma authorize_no_probe (auth : OAuth2Client) : probeless (authorize auth).
Proof. unfold authorize. cbv zeta. repeat probeless_step. Qed.

(** Sequencing after a computation whose outcome at [w] is known. *)
Lemma bind_outcome {A B : Type} (m : M A) (k : A -> M B) (w w1 : world)
  (tr : list event) (a : A) :
  m w = mkOutcome w1 tr (inr a) ->
  bind m k w =
  mkOutcome (final (k a w1)) (tr ++ trace (k a w1))%list (result (k a w1)).
Proof. intros E. unfold bind. rewrite E. reflexivity. Qed.

Lemma bind_value {A B : Type} (m : M A) (k : A -> M B) (w : world) (a : A) :
  m w = mkOutcome w [] (inr a) -> bind m k w = k a w.
Proof.
  intros E. rewrite (bind_outcome _ _ _ _ _ _ E). cbn [app].
  destruct (k a w); reflexivity.
Qed.

Lemma silent_value {A : Type} (m : M A) (w : world) (a : A) :
  silent m -> result (m w) = inr a -> m w = mkOutcome w [] (inr a).
Proof.
  intros Hs Hr. destruct (Hs w) as [Hf Ht].
  destruct (m w) as [w' tr r]. cbn in *. subst. reflexivity.
Qed.

(** Lines 49-61 when the token file is there and parses: one probe, and
    the method returns or goes on according to its fate. *)
Lemma check_saved_token_probe (auth0 : OAuth2Client) (w w' : world)
  (text : string) (token : value) (r : thrown + unit) :
  existsSync w "token.json" = true ->
  readFileSync w "token.json" = inr text ->
  JSON_parse text = inr token ->
  users_getProfile w (setCredentials auth0 token) = (w', r) ->
  check_saved_token auth0 w =
  match r with
  | inr _ =>
      mkOutcome w' [getProfile_request (setCredentials auth0 token) None]
                (inr (true, setCredentials auth0 token))
  | inl e =>
      mkOutcome w'
        [getProfile_request (setCredentials auth0 token) (Some e);
         console_log "Saved token is invalid or expired. Re-authenticating..."]
        (inr (false, setCredentials auth0 token))
  end.
Proof.
  intros Hexists Hread Hparse E. unfold check_saved_token.
  rewrite (bind_value _ _ w true)
    by (unfold fs_existsSync; rewrite Hexists; reflexivity).
  cbv beta iota.
  rewrite (bind_value _ _ w text)
    by (unfold fs_readFileSync; rewrite Hread; reflexivity).
  rewrite (bind_value _ _ w token)
    by (unfold lift; rewrite Hparse; reflexivity).
  cbv beta zeta.
  unfold try_catch, bind, gmail_users_getProfile, emit, ret.
  rewrite E. destruct r as [e|[]]; reflexivity.
Qed.

(** C7, amended.  With the client credentials resolved and a token file
    that exists, can be read and parses, [authenticate] loads the token and
    probes it with one
    [getProfile] call.  If the probe succeeds the method returns with the
    token in place: that call is all the run does, so nothing is printed and
    nobody is prompted.  If the probe fails, its error is dropped: one line
    is logged and the run goes on as the interactive authorization, which
    prints the authorization URL. *)
Theorem authenticate_saved_token (w : world) (id secret uri : value)
  (text : string) (token : value) :
  result (resolve_credentials w) = inr (id, secret, uri) ->
  existsSync w "token.json" = true ->
  readFileSync w "token.json" = inr text ->
  JSON_parse text = inr token ->
  let auth := mkOAuth2Client id secret uri token in
  (forall w',
     users_getProfile w auth = (w', inr tt) ->
     authenticate w = mkOutcome w' [getProfile_request auth None] (inr auth)
     /\ probes (trace (authenticate w)) = [(auth, None)]
     /\ prompts (trace (authenticate w)) = []
     /\ logged (trace (authenticate w)) = [])
  /\ (forall w' e,
        users_getProfile w auth = (w', inl e) ->
        let o' := authorize auth w' in
        authenticate w =
        mkOutcome (final o')
          ([getProfile_request auth (Some e);
            console_log
              "Saved token is invalid or expired. Re-authenticating..."]
           ++ trace o')%list
          (result o')
        /\ probes (trace (authenticate w)) = [(auth, Some e)]
        /\ In ("   " ++ generateAuthUrl auth ++ nl)%string
              (logged (trace (authenticate w)))).
Proof.
  intros Hres Hexists Hread Hparse auth.
  pose proof (silent_value _ w _ resolve_credentials_silent Hres) as Hcreds.
  set (auth0 := mkOAuth2Client id secret uri (VObj [])).
  assert (Hstart :
    authenticate w =
    bind (check_saved_token auth0)
         (fun checked =>
            let '(returned, auth) := checked in
            if returned then ret auth else authorize auth) w).
  { unfold authenticate. rewrite (bind_value _ _ _ _ Hcreds). reflexivity. }
  split.
  - intros w' E.
    pose proof (check_saved_token_probe auth0 w w' text token _
                  Hexists Hread Hparse E) as Hcheck.
    rewrite Hstart, (bind_outcome _ _ _ _ _ _ Hcheck).
    repeat split.
  - intros w' e E. cbv zeta.
    pose proof (check_saved_token_probe auth0 w w' text token _
                  Hexists Hread Hparse E) as Hcheck.
    rewrite Hstart, (bind_outcome _ _ _ _ _ _ Hcheck).
    cbv beta iota. cbn [trace].
    split; [reflexivity|]. split.
    + rewrite probes_app, authorize_no_probe. reflexivity.
    + rewrite logged_app. apply in_or_app. right.
      apply authorize_prints_url.
Qed.

End AuthClaims.

(** * Concrete runs *)

(** 2500 ids against a service whose second call fails. *)
Lemma batchDeleteEmails_chunks_witness :
  let o := @batchDeleteEmails Runs.flaky Runs.ids2500 false 0 in
  Runs.ids2500 <> []
  /\ List.length Runs.ids2500 = 2500
  /\ map snd (deletions (trace o)) = [None; Some (ErrorObj "boom"); None]
  /\ map (@List.length string) (map fst (deletions (trace o)))
     = [1000; 1000; 500]
  /\ result o
     = inr (mkCleanupResult 2500 1500 ["Error deleting batch: boom"]).
Proof.
  assert (Hne : Runs.ids2500 <> []) by (vm_compute; discriminate).
  assert (Hlen : List.length Runs.ids2500 = 2500) by (vm_compute; reflexivity).
  assert (Hfate :
    map snd (deletions
               (trace (@batchDeleteEmails Runs.flaky Runs.ids2500 false 0)))
    = [None; Some (ErrorObj "boom"); None]) by (vm_compute; reflexivity).
  destruct (@batchDeleteEmails_chunks Runs.flaky Runs.ids2500 0 Hne)
    as (_ & _ & _ & _ & _ & H2500).
  destruct (H2500 Hlen) as [Hsizes Hresult].
  split; [exact Hne|]. split; [exact Hlen|]. split; [exact Hfate|].
  split; [exact Hsizes|].
  exact (Hresult (ErrorObj "boom") Hfate).
Defined.

(** A dry run over one id: nothing is deleted, no chunk fails, and
    [deleted] plus the size of the failed chunks is 0, not [totalFound]. *)
Lemma batchDeleteEmails_accounting_counterexample :
  let o := @batchDeleteEmails Runs.flaky ["m1"] true 0 in
  exists res,
    result o = inr res
    /\ res = mkCleanupResult 1 0 []
    /\ failed_chunks (trace o) = []
    /\ deleted res + total_size (failed_chunks (trace o)) <> totalFound res.
Proof.
  cbv zeta. exists (mkCleanupResult 1 0 []).
  split; [reflexivity|]. split; [reflexivity|]. split; [reflexivity|].
  vm_compute. discriminate.
Qed.

(** The accounting of a real run in which one chunk fails. *)
Lemma batchDeleteEmails_accounting_witness :
  let o := @batchDeleteEmails Runs.flaky Runs.ids2500 false 0 in
  exists res,
    result o = inr res
    /\ deleted res + total_size (failed_chunks (trace o)) = totalFound res
    /\ List.length (errors res) = List.length (failed_chunks (trace o)).
Proof.
  destruct (@batchDeleteEmails_accounting Runs.flaky Runs.ids2500 false 0)
    as (res & Hres & _ & _ & Herrors & Hsum & _).
  exists res. split; [exact Hres|].
  split; [exact (Hsum eq_refl) | exact Herrors].
Defined.

(** The three shapes of the query. *)
Lemma searchEmails_query_witness :
  map fst (listings (trace (@searchEmails Runs.flaky Runs.by_sender 0)))
  = ["(from:spam@example.com OR from:promos@example.com)"]
  /\ occurs "subject:" "(from:spam@example.com OR from:promos@example.com)"
     = false
  /\ map fst (listings (trace (@searchEmails Runs.flaky Runs.by_subject 0)))
     = ["(subject:" ++ dquote ++ "Unsubscribe" ++ dquote
        ++ " OR subject:" ++ dquote ++ "Special Offer" ++ dquote ++ ")"]
  /\ map fst (listings (trace (@searchEmails Runs.flaky Runs.by_both 0)))
     = ["(from:spam@example.com) AND (subject:" ++ dquote ++ "Promotion"
        ++ dquote ++ ")"].
Proof.
  destruct (@searchEmails_query Runs.flaky Runs.by_sender 0)
    as (Hsender & _ & _).
  destruct (@searchEmails_query Runs.flaky Runs.by_subject 0)
    as (_ & Hsubject & _).
  destruct (@searchEmails_query Runs.flaky Runs.by_both 0)
    as (_ & _ & Hboth).
  destruct (Hsender eq_refl eq_refl) as [Hq Hfree].
  destruct (Hsubject eq_refl eq_refl) as [Hq' _].
  split; [exact Hq|].
  split; [apply Hfree; repeat constructor|].
  split; [exact Hq'|].
  exact (Hboth eq_refl eq_refl).
Defined.

(** A caller asking for 1000 results. *)
Lemma searchEmails_maxResults_cap_witness :
  present (senders (Runs.with_maxResults (Num 1000)))
  || present (subjects (Runs.with_maxResults (Num 1000))) = true
  /\ listings
       (trace (@searchEmails Runs.flaky (Runs.with_maxResults (Num 1000)) 0))
     = [("(from:spam@example.com)", Num 500)].
Proof.
  split; [reflexivity|].
  destruct (@searchEmails_maxResults_cap Runs.flaky
              (Runs.with_maxResults (Num 1000)) 0 eq_refl)
    as (q & k & Hl & _ & _ & H1000 & _).
  rewrite Hl, (H1000 eq_refl) in *.
  vm_compute in Hl. injection Hl as <-. reflexivity.
Defined.

(** A caller asking for 0 results. *)
Lemma searchEmails_maxResults_zero_witness :
  maxResults (Runs.with_maxResults (Num 0)) = Some (Num 0)
  /\ exists q,
       listings
         (trace (@searchEmails Runs.flaky (Runs.with_maxResults (Num 0)) 0))
       = [(q, Num 500)].
Proof.
  split; [reflexivity|].
  destruct (@searchEmails_maxResults_zero Runs.flaky
              (Runs.with_maxResults (Num 0)) 0 (Num 0)
              eq_refl eq_refl (or_introl eq_refl))
    as (q & Hl & _).
  exists q. exact Hl.
Defined.

(** A search without criteria. *)
Lemma searchEmails_requires_criteria_witness :
  present (senders Runs.no_criteria) = false
  /\ present (subjects Runs.no_criteria) = false
  /\ @searchEmails Runs.flaky Runs.no_criteria 7 =
     @mkOutcome Runs.flaky _ 7 []
       (inl (ErrorObj "At least one sender or subject must be specified")).
Proof.
  split; [reflexivity|]. split; [reflexivity|].
  exact (@searchEmails_requires_criteria Runs.flaky Runs.no_criteria 7
           eq_refl eq_refl).
Defined.

(** Ten candidates, one failed metadata request: nine matches. *)
Lemma searchEmails_one_fetch_failure_witness :
  let o := @searchEmails Runs.listing Runs.by_sender 0 in
  List.length Runs.ten = 10
  /\ Forall (fun m => has_id m = true) Runs.ten
  /\ List.length (filter rejected (fetches (trace o))) = 1
  /\ exists matches,
       result o = inr matches
       /\ List.length matches = 10 - 1.
Proof.
  assert (Hids : Forall (fun m => has_id m = true) Runs.ten)
    by (repeat constructor).
  assert (Hone :
    List.length
      (filter rejected
         (fetches (trace (@searchEmails Runs.listing Runs.by_sender 0)))) = 1)
    by (vm_compute; reflexivity).
  destruct (@searchEmails_one_fetch_failure Runs.listing Runs.by_sender 0 1
              "(from:spam@example.com OR from:promos@example.com)" (Num 500)
              Runs.ten eq_refl eq_refl Hone)
    as (matches & Hres & Hlen & _ & _ & Hall & _).
  split; [reflexivity|]. split; [exact Hids|]. split; [exact Hone|].
  exists matches. split; [exact Hres|].
  rewrite Hlen, (Hall Hids). reflexivity.
Defined.

(** The same run: the ids of the matches, in listing order. *)
Lemma searchEmails_listing_order_witness :
  let o := @searchEmails Runs.listing Runs.by_sender 0 in
  exists matches,
    result o = inr matches
    /\ map id matches
       = ["m1"; "m3"; "m4"; "m5"; "m6"; "m7"; "m8"; "m9"; "m10"]
    /\ subsequence (map id matches)
                   ["m1"; "m2"; "m3"; "m4"; "m5"; "m6"; "m7"; "m8"; "m9";
                    "m10"].
Proof.
  destruct (@searchEmails_listing_order Runs.listing Runs.by_sender 0 1
              "(from:spam@example.com OR from:promos@example.com)" (Num 500)
              (Some Runs.ten) eq_refl eq_refl)
    as (matches & Hres & _ & _ & _ & Hids & Hsub).
  exists matches. split; [exact Hres|]. split.
  - rewrite Hids. vm_compute. reflexivity.
  - exact Hsub.
Defined.

(** A saved token that is still valid, and one that has expired. *)
Lemma authenticate_saved_token_witness :
  let auth :=
    mkOAuth2Client (VStr "id") (VStr "secret")
                   (VStr "http://localhost:3000/oauth2callback") Runs.saved in
  @authenticate Runs.valid_token 0
  = @mkOutcome Runs.valid_token _ 1 [getProfile_request auth None] (inr auth)
  /\ probes (trace (@authenticate Runs.expired_token 0))
     = [(auth, Some (ErrorObj "boom"))]
  /\ In ("   https://accounts.example/auth" ++ nl)%string
        (logged (trace (@authenticate Runs.expired_token 0))).
Proof.
  cbv zeta.
  destruct (@authenticate_saved_token Runs.valid_token 0
              (VStr "id") (VStr "secret")
              (VStr "http://localhost:3000/oauth2callback") "{}" Runs.saved
              eq_refl eq_refl eq_refl eq_refl)
    as [Hvalid _].
  destruct (@authenticate_saved_token Runs.expired_token 0
              (VStr "id") (VStr "secret")
              (VStr "http://localhost:3000/oauth2callback") "{}" Runs.saved
              eq_refl eq_refl eq_refl eq_refl)
    as [_ Hexpired].
  destruct (Hvalid 1 eq_refl) as (Hrun & _).
  destruct (Hexpired 1 (ErrorObj "boom") eq_refl) as (_ & Hprobes & Hurl).
  split; [exact Hrun|]. split; [exact Hprobes | exact Hurl].
Defined.

(** A sender that holds the text [subject:]: the query has no subject
    group, and yet the text is in it. *)
Lemma searchEmails_query_counterexample :
  let config :=
    mkSearchConfig (Some ["a@x.com subject:secret"]) None None in
  present (senders config) = true
  /\ present (subjects config) = false
  /\ map fst (listings (trace (@searchEmails Runs.flaky config 0)))
     = ["(from:a@x.com subject:secret)"]
  /\ occurs "subject:" "(from:a@x.com subject:secret)" = true.
Proof.
  cbv zeta. split; [reflexivity|]. split; [reflexivity|].
  split; vm_compute; reflexivity.
Qed.

(** A token file that is there and is not JSON: the run throws the error of
    the parse and the token is never probed. *)
Lemma authenticate_saved_token_counterexample :
  @existsSync Stage.garbled 0 "token.json" = true
  /\ result (@authenticate Stage.garbled 0) = inl (ErrorObj "SyntaxError")
  /\ probes (trace (@authenticate Stage.garbled 0)) = [].
Proof.
  split; [reflexivity|]. split; vm_compute; reflexivity.
Qed.

(** * Further properties of the code *)

Section Kinds.

Context `{Host}.

(** ** Events by kind, through sequences *)

Lemma trace_try_catch {A : Type} (body : M A) (handler : thrown -> M A)
  (w : world) :
  trace (try_catch body handler w) =
  (trace (body w) ++
   match result (body w) with
   | inl e => trace (handler e (final (body w)))
   | inr _ => []
   end)%list.
Proof.
  unfold try_catch. destruct (result (body w)); cbn [trace];
    [|rewrite app_nil_r]; reflexivity.
Qed.

Lemma result_bind {A B : Type} (m : M A) (k : A -> M B) (w : world) :
  result (bind m k w) =
  match result (m w) with
  | inl e => inl e
  | inr a => result (k a (final (m w)))
  end.
Proof. unfold bind. destruct (result (m w)); reflexivity. Qed.

Lemma final_bind {A B : Type} (m : M A) (k : A -> M B) (w : world) :
  final (bind m k w) =
  match result (m w) with
  | inl e => final (m w)
  | inr a => final (k a (final (m w)))
  end.
Proof. unfold bind. destruct (result (m w)); reflexivity. Qed.

Lemma emits_only_bind {A B : Type} (p : event -> bool) (m : M A)
  (k : A -> M B) :
  emits_only p m -> (forall a, emits_only p (k a)) -> emits_only p (bind m k).
Proof.
  intros Hm Hk w. rewrite trace_bind, forallb_app, Hm.
  destruct (result (m w)) as [e|a]; [reflexivity | apply Hk].
Qed.

Lemma emits_only_try_catch {A : Type} (p : event -> bool) (body : M A)
  (handler : thrown -> M A) :
  emits_only p body -> (forall e, emits_only p (handler e)) ->
  emits_only p (try_catch body handler).
Proof.
  intros Hb Hh w. rewrite trace_try_catch, forallb_app, Hb.
  destruct (result (body w)) as [e|a]; [apply Hh | reflexivity].
Qed.

Lemma emits_only_silent {A : Type} (p : event -> bool) (m : M A) :
  silent m -> emits_only p m.
Proof. intros Hm w. destruct (Hm w) as [_ ->]. reflexivity. Qed.

Lemma emits_only_emit (p : event -> bool) (e : event) :
  p e = true -> emits_only p (emit e).
Proof. intros He w. cbn. rewrite He. reflexivity. Qed.

Lemma emits_only_weaken {A : Type} (p q : event -> bool) (m : M A) :
  (forall e, p e = true -> q e = true) ->
  emits_only p m -> emits_only q m.
Proof.
  intros Hpq Hm w. specialize (Hm w).
  rewrite forallb_forall in *. auto.
Qed.

Lemma emits_only_list (p : event -> bool) (q : string) (n : jsnum) :
  (forall a, p (list_request q n a) = true) ->
  emits_only p (users_messages_list q n).
Proof.
  intros Hp w. unfold users_messages_list.
  destruct (messages_list w q n). cbn. rewrite Hp. reflexivity.
Qed.

Lemma emits_only_get (p : event -> bool) (i : string) :
  (forall a, p (get_request i a) = true) ->
  emits_only p (users_messages_get i).
Proof.
  intros Hp w. unfold users_messages_get.
  destruct (messages_get w i). cbn. rewrite Hp. reflexivity.
Qed.

Lemma emits_only_batchDelete (p : event -> bool) (ids : list string) :
  (forall f, p (batchDelete_request ids f) = true) ->
  emits_only p (users_messages_batchDelete ids).
Proof.
  intros Hp w. unfold users_messages_batchDelete.
  destruct (messages_batchDelete w ids). cbn. rewrite Hp. reflexivity.
Qed.

Lemma emits_only_getProfile (p : event -> bool) (auth : OAuth2Client) :
  (forall f, p (getProfile_request auth f) = true) ->
  emits_only p (gmail_users_getProfile auth).
Proof.
  intros Hp w. unfold gmail_users_getProfile.
  destruct (users_getProfile w auth). cbn. rewrite Hp. reflexivity.
Qed.

Lemma emits_only_getToken (p : event -> bool) (auth : OAuth2Client)
  (code : string) :
  (forall f, p (getToken_request auth code f) = true) ->
  emits_only p (getToken auth code).
Proof.
  intros Hp w. unfold getToken.
  destruct (auth_getToken w auth code). cbn. rewrite Hp. reflexivity.
Qed.

Lemma emits_only_question (p : event -> bool) (text : string) :
  (forall a, p (prompt text a) = true) -> emits_only p (question text).
Proof.
  intros Hp w. unfold question.
  destruct (rl_question w text). cbn. rewrite Hp. reflexivity.
Qed.

Lemma emits_only_writeFileSync (p : event -> bool) (path content : string) :
  (forall f, p (file_write path content f) = true) ->
  emits_only p (fs_writeFileSync path content).
Proof.
  intros Hp w. unfold fs_writeFileSync.
  destruct (writeFileSync w path content). cbn. rewrite Hp. reflexivity.
Qed.

(** Nothing that passes [p] is left by a computation whose events all fail
    it. *)
Lemma emits_only_filter {A : Type} (p q : event -> bool) (m : M A)
  (w : world) :
  emits_only p m -> (forall e, p e = true -> q e = false) ->
  filter q (trace (m w)) = [].
Proof.
  intros Hm Hpq. specialize (Hm w). rewrite forallb_forall in Hm.
  induction (trace (m w)) as [|e tr IH]; [reflexivity|].
  cbn. rewrite (Hpq e) by (apply Hm; left; reflexivity).
  apply IH. intros x Hx. apply Hm. right. exact Hx.
Qed.

End Kinds.

Ltac only_step :=
  match goal with
  | |- emits_only _ (bind _ _) => apply emits_only_bind; [|intros ?]
  | |- emits_only _ (try_catch _ _) =>
      apply emits_only_try_catch; [|intros ?]
  | |- emits_only _ (if ?b then _ else _) => destruct b
  | |- emits_only _ (match ?o with Some _ => _ | None => _ end) =>
      destruct o
  | |- emits_only _ (emit _) => apply emits_only_emit; reflexivity
  | |- emits_only _ (ret _) => apply emits_only_silent, silent_ret
  | |- emits_only _ (throw _) => apply emits_only_silent, silent_throw
  | |- emits_only _ (lift _) => apply emits_only_silent, silent_lift
  | |- emits_only _ (env _) => apply emits_only_silent, silent_env
  | |- emits_only _ (fs_existsSync _) =>
      apply emits_only_silent, silent_existsSync
  | |- emits_only _ (fs_readFileSync _) =>
      apply emits_only_silent, silent_readFileSync
  | |- emits_only _ (users_messages_list _ _) =>
      apply emits_only_list; reflexivity
  | |- emits_only _ (users_messages_get _) =>
      apply emits_only_get; reflexivity
  | |- emits_only _ (users_messages_batchDelete _) =>
      apply emits_only_batchDelete; reflexivity
  | |- emits_only _ (gmail_users_getProfile _) =>
      apply emits_only_getProfile; reflexivity
  | |- emits_only _ (getToken _ _) => apply emits_only_getToken; reflexivity
  | |- emits_only _ (question _) => apply emits_only_question; reflexivity
  | |- emits_only _ (fs_writeFileSync _ _) =>
      apply emits_only_writeFileSync; reflexivity
  end.

Section Footprints.

Context `{Host}.

Lemma resolve_credentials_only (p : event -> bool) :
  emits_only p resolve_credentials.
Proof. apply emits_only_silent, resolve_credentials_silent. Qed.

Lemma fetchLoop_only (ms : list message) :
  forall acc, emits_only search_event (fetchLoop ms acc).
Proof.
  induction ms as [|m ms IH]; intros acc; cbn [fetchLoop].
  - only_step.
  - apply emits_only_bind; [|intros acc'; apply IH].
    unfold fetchMessage. repeat only_step.
Qed.

Lemma deleteLoop_only (messageIds : list string) :
  forall n i r, List.length messageIds - i <= n ->
                emits_only delete_event (deleteLoop messageIds i r).
Proof.
  induction n as [|n IH]; intros i r Hn.
  - rewrite deleteLoop_done by lia. only_step.
  - destruct (le_lt_dec (List.length messageIds) i) as [Hdone|Hlt].
    + rewrite deleteLoop_done by lia. only_step.
    + rewrite deleteLoop_step by assumption.
      apply emits_only_bind;
        [|intros r'; apply IH; unfold batchSize; lia].
      unfold deleteBatch. cbv zeta. repeat only_step.
Qed.

End Footprints.

(** ** Counting events of one kind *)

Section Counting.

Context `{Host}.

Lemma at_most_zero {A : Type} (p : event -> bool) (m : M A) :
  emits_only (fun e => negb (p e)) m -> at_most 0 p m.
Proof.
  intros Hm w.
  rewrite (emits_only_filter (fun e => negb (p e)) p m w Hm);
    [reflexivity|].
  intros e He. destruct (p e); [discriminate | reflexivity].
Qed.

Lemma at_most_bind_left {A B : Type} (n : nat) (p : event -> bool)
  (m : M A) (k : A -> M B) :
  at_most 0 p m -> (forall a, at_most n p (k a)) -> at_most n p (bind m k).
Proof.
  intros Hm Hk w. rewrite trace_bind, filter_app, length_app.
  specialize (Hm w). destruct (result (m w)) as [e|a].
  - cbn. lia.
  - specialize (Hk a (final (m w))). lia.
Qed.

Lemma at_most_bind_right {A B : Type} (n : nat) (p : event -> bool)
  (m : M A) (k : A -> M B) :
  at_most n p m -> (forall a, at_most 0 p (k a)) -> at_most n p (bind m k).
Proof.
  intros Hm Hk w. rewrite trace_bind, filter_app, length_app.
  specialize (Hm w). destruct (result (m w)) as [e|a].
  - cbn. lia.
  - specialize (Hk a (final (m w))). lia.
Qed.

Lemma at_most_try_catch {A : Type} (n : nat) (p : event -> bool)
  (body : M A) (handler : thrown -> M A) :
  at_most n p body -> (forall e, at_most 0 p (handler e)) ->
  at_most n p (try_catch body handler).
Proof.
  intros Hb Hh w. rewrite trace_try_catch, filter_app, length_app.
  specialize (Hb w). destruct (result (body w)) as [e|a].
  - specialize (Hh e (final (body w))). lia.
  - cbn. lia.
Qed.

Lemma at_most_one_getProfile (p : event -> bool) (auth : OAuth2Client) :
  at_most 1 p (gmail_users_getProfile auth).
Proof.
  intros w. unfold gmail_users_getProfile.
  destruct (users_getProfile w auth). cbn.
  destruct (p _); cbn; lia.
Qed.

Lemma at_most_one_question (p : event -> bool) (text : string) :
  at_most 1 p (question text).
Proof.
  intros w. unfold question. destruct (rl_question w text). cbn.
  destruct (p _); cbn; lia.
Qed.

Lemma at_most_one_getToken (p : event -> bool) (auth : OAuth2Client)
  (code : string) :
  at_most 1 p (getToken auth code).
Proof.
  intros w. unfold getToken. destruct (auth_getToken w auth code). cbn.
  destruct (p _); cbn; lia.
Qed.

Lemma at_most_one_writeFileSync (p : event -> bool) (path content : string) :
  at_most 1 p (fs_writeFileSync path content).
Proof.
  intros w. unfold fs_writeFileSync.
  destruct (writeFileSync w path content). cbn.
  destruct (p _); cbn; lia.
Qed.

Lemma at_most_one_list (p : event -> bool) (q : string) (n : jsnum) :
  at_most 1 p (users_messages_list q n).
Proof.
  intros w. unfold users_messages_list.
  destruct (messages_list w q n). cbn.
  destruct (p _); cbn; lia.
Qed.

Lemma probes_count (tr : list event) :
  List.length (probes tr) = List.length (filter is_probe tr).
Proof.
  induction tr as [|e tr IH]; [reflexivity|]. destruct e; cbn; lia.
Qed.

Lemma prompts_count (tr : list event) :
  List.length (prompts tr) = List.length (filter is_prompt tr).
Proof.
  induction tr as [|e tr IH]; [reflexivity|]. destruct e; cbn; lia.
Qed.

Lemma exchanges_count (tr : list event) :
  List.length (exchanges tr) = List.length (filter is_exchange tr).
Proof.
  induction tr as [|e tr IH]; [reflexivity|]. destruct e; cbn; lia.
Qed.

Lemma writes_count (tr : list event) :
  List.length (writes tr) = List.length (filter is_write tr).
Proof.
  induction tr as [|e tr IH]; [reflexivity|]. destruct e; cbn; lia.
Qed.

End Counting.

Ltac count_zero := solve [apply at_most_zero; repeat only_step].

Ltac count_step :=
  match goal with
  | |- at_most _ _ (bind _ _) =>
      first [ apply at_most_bind_left; [count_zero | intros ?]
            | apply at_most_bind_right; [| intros ?; count_zero] ]
  | |- at_most _ _ (try_catch _ _) =>
      apply at_most_try_catch; [| intros ?; count_zero]
  | |- at_most _ _ (if ?b then _ else _) => destruct b
  | |- at_most _ _ (gmail_users_getProfile _) => apply at_most_one_getProfile
  | |- at_most _ _ (question _) => apply at_most_one_question
  | |- at_most _ _ (getToken _ _) => apply at_most_one_getToken
  | |- at_most _ _ (fs_writeFileSync _ _) => apply at_most_one_writeFileSync
  | |- at_most _ _ (users_messages_list _ _) => apply at_most_one_list
  | |- at_most 1 ?p ?m =>
      let Hz := fresh in
      let w := fresh "w" in
      assert (Hz : at_most 0 p m) by count_zero;
      intros w; specialize (Hz w); lia
  end.

(** ** [authenticate]: what a run may do *)

Section AuthFootprint.

Context `{Host}.

Lemma authenticate_at_most_one (p : event -> bool) :
  (p = is_probe \/ p = is_prompt \/ p = is_exchange \/ p = is_write) ->
  at_most 1 p authenticate.
Proof.
  intros Hp. unfold authenticate.
  apply at_most_bind_left;
    [apply at_most_zero, resolve_credentials_only|].
  intros [[a b] c]. cbv beta iota zeta.
  destruct Hp as [-> | [-> | [-> | ->]]].
  - apply at_most_bind_right.
    + unfold check_saved_token. repeat count_step.
    + intros [[|] auth]; [count_zero|].
      unfold authorize. cbv zeta. count_zero.
  - apply at_most_bind_left.
    + unfold check_saved_token. count_zero.
    + intros [[|] auth]; [count_step|].
      unfold authorize. cbv zeta. repeat count_step.
  - apply at_most_bind_left.
    + unfold check_saved_token. count_zero.
    + intros [[|] auth]; [count_step|].
      unfold authorize. cbv zeta. repeat count_step.
  - apply at_most_bind_left.
    + unfold check_saved_token. count_zero.
    + intros [[|] auth]; [count_step|].
      unfold authorize. cbv zeta. repeat count_step.
Qed.

Lemma authenticate_only : emits_only auth_event authenticate.
Proof.
  unfold authenticate.
  apply emits_only_bind; [apply resolve_credentials_only|].
  intros [[a b] c]. cbv beta iota zeta.
  apply emits_only_bind.
  - unfold check_saved_token. repeat only_step.
  - intros [[|] auth]; [only_step|].
    unfold authorize. cbv zeta. repeat only_step.
Qed.

(** X1.  Whatever the machine and the service do, a run of [authenticate]
    leaves only console lines, profile probes, token exchanges, prompts and
    writes to [token.json]: it never lists, reads or deletes a message and
    writes no other file.  It probes the profile at most once, prompts at
    most once, exchanges a code at most once and writes the token file at
    most once. *)
Theorem authenticate_footprint (w : world) :
  let tr := trace (authenticate w) in
  forallb auth_event tr = true
  /\ filter is_mail_call tr = []
  /\ List.length (probes tr) <= 1
  /\ List.length (prompts tr) <= 1
  /\ List.length (exchanges tr) <= 1
  /\ List.length (writes tr) <= 1.
Proof.
  cbv zeta. pose proof authenticate_only as Honly.
  split; [apply Honly|].
  split.
  { apply (emits_only_filter auth_event is_mail_call _ w Honly).
    intros [] He; try reflexivity; discriminate. }
  rewrite probes_count, prompts_count, exchanges_count, writes_count.
  repeat split; apply authenticate_at_most_one; auto.
Qed.

End AuthFootprint.

(** ** [authenticate]: credentials, token file and authorization code *)

Section AuthBehaviour.

Context `{Host}.

Lemma authorize_parts (auth : OAuth2Client) (w : world) :
  authorize auth w =
  mkOutcome (final (exchange_code auth w))
            (instructions auth ++ trace (exchange_code auth w))%list
            (result (exchange_code auth w)).
Proof. reflexivity. Qed.

Lemma exchange_code_env (auth : OAuth2Client) (w : world) (code : string) :
  process_env w "AUTH_CODE" = Some code -> str_truthy code = true ->
  exchange_code auth w = save_token auth code w.
Proof.
  intros Henv Hcode. unfold exchange_code.
  rewrite (bind_value _ _ w (Some code))
    by (unfold env; rewrite Henv; reflexivity).
  cbn [set_and_truthy or_empty]. rewrite Hcode.
  rewrite (bind_value _ _ w code) by reflexivity.
  reflexivity.
Qed.

Lemma exchange_code_prompt (auth : OAuth2Client) (w w0 : world)
  (answer : string) :
  set_and_truthy (process_env w "AUTH_CODE") = false ->
  rl_question w "Paste the authorization code here: " = (w0, answer) ->
  exchange_code auth w =
  if str_truthy (trim answer) then
    mkOutcome (final (save_token auth (trim answer) w0))
      (prompt "Paste the authorization code here: " answer
       :: trace (save_token auth (trim answer) w0))
      (result (save_token auth (trim answer) w0))
  else
    mkOutcome w0 [prompt "Paste the authorization code here: " answer]
      (inl (ErrorObj
              "Authorization code is required. Please run again and provide the code.")).
Proof.
  intros Henv Hq. unfold exchange_code.
  rewrite (bind_value _ _ w (process_env w "AUTH_CODE")) by reflexivity.
  rewrite Henv.
  assert (Hask :
    question "Paste the authorization code here: " w =
    mkOutcome w0 [prompt "Paste the authorization code here: " answer]
              (inr answer)).
  { unfold question. rewrite Hq. reflexivity. }
  destruct (str_truthy (trim answer)) eqn:Hcode.
  - erewrite (bind_outcome
                (answer0 <- question "Paste the authorization code here: " ;;
                 _) _ w w0
                [prompt "Paste the authorization code here: " answer]
                (trim answer)).
    + reflexivity.
    + rewrite (bind_outcome _ _ _ _ _ _ Hask). cbv zeta. rewrite Hcode.
      reflexivity.
  - unfold bind at 1. rewrite (bind_outcome _ _ _ _ _ _ Hask).
    cbv zeta. rewrite Hcode. reflexivity.
Qed.

Lemma save_token_outcome (auth : OAuth2Client) (code : string) (w : world) :
  save_token auth code w =
  match auth_getToken w auth code with
  | (w1, inl e) => mkOutcome w1 [getToken_request auth code (Some e)] (inl e)
  | (w1, inr tokens) =>
      match writeFileSync w1 "token.json" (JSON_stringify tokens) with
      | (w2, inl e) =>
          mkOutcome w2
            [getToken_request auth code None;
             file_write "token.json" (JSON_stringify tokens) (Some e)]
            (inl e)
      | (w2, inr _) =>
          mkOutcome w2
            [getToken_request auth code None;
             file_write "token.json" (JSON_stringify tokens) None;
             console_log "Token stored to token.json"]
            (inr (setCredentials auth tokens))
      end
  end.
Proof.
  unfold save_token, bind, getToken, fs_writeFileSync, emit, ret.
  destruct (auth_getToken w auth code) as [w1 [e|tokens]];
    cbn [result final trace app]; [reflexivity|].
  destruct (writeFileSync w1 "token.json" (JSON_stringify tokens))
    as [w2 [e|[]]]; reflexivity.
Qed.

Lemma writes_app (a b : list event) :
  writes (a ++ b) = (writes a ++ writes b)%list.
Proof.
  induction a as [|e a IH]; [reflexivity|].
  destruct e; simpl; rewrite IH; reflexivity.
Qed.

Lemma exchanges_app (a b : list event) :
  exchanges (a ++ b) = (exchanges a ++ exchanges b)%list.
Proof.
  induction a as [|e a IH]; [reflexivity|].
  destruct e; simpl; rewrite IH; reflexivity.
Qed.

Lemma prompts_app (a b : list event) :
  prompts (a ++ b) = (prompts a ++ prompts b)%list.
Proof.
  induction a as [|e a IH]; [reflexivity|].
  destruct e; simpl; rewrite IH; reflexivity.
Qed.

(** X2.  With no [credentials.json] and [CLIENT_ID] or [CLIENT_SECRET]
    unset or empty, [authenticate] throws the error that says so, before
    anything is printed, asked or sent. *)
Theorem authenticate_without_credentials (w : world) :
  existsSync w "credentials.json" = false ->
  set_and_truthy (process_env w "CLIENT_ID")
  && set_and_truthy (process_env w "CLIENT_SECRET") = false ->
  authenticate w =
  mkOutcome w []
    (inl (ErrorObj
            ("credentials.json not found and CLIENT_ID/CLIENT_SECRET not set."
             ++ nl ++
             "Please download credentials.json from Google Cloud Console or set environment variables."
             ++ nl ++
             "See README.md for setup instructions."))).
Proof.
  intros Hfile Henv.
  assert (Hres :
    resolve_credentials w =
    mkOutcome w []
      (inl (ErrorObj
              ("credentials.json not found and CLIENT_ID/CLIENT_SECRET not set."
               ++ nl ++
               "Please download credentials.json from Google Cloud Console or set environment variables."
               ++ nl ++
               "See README.md for setup instructions.")))).
  { unfold resolve_credentials.
    rewrite (bind_value _ _ w false)
      by (unfold fs_existsSync; rewrite Hfile; reflexivity).
    cbv beta iota.
    rewrite (bind_value _ _ w (process_env w "CLIENT_ID")) by reflexivity.
    rewrite (bind_value _ _ w (process_env w "CLIENT_SECRET"))
      by reflexivity.
    rewrite Henv. reflexivity. }
  unfold authenticate, bind at 1. rewrite Hres. reflexivity.
Qed.

(** X3.  A [credentials.json] that parses to an object with neither an
    [installed] nor a [web] entry makes [authenticate] throw an error (a
    [TypeError]) before anything is printed, asked or sent, whatever the
    environment variables hold: the file, once there, is the only source. *)
Theorem authenticate_credentials_file_without_client (w : world)
  (text : string) (fields : list (string * value)) :
  existsSync w "credentials.json" = true ->
  readFileSync w "credentials.json" = inr text ->
  JSON_parse text = inr (VObj fields) ->
  lookup "installed" fields = VUndefined ->
  lookup "web" fields = VUndefined ->
  exists message,
    authenticate w = mkOutcome w [] (inl (ErrorObj message)).
Proof.
  intros Hfile Hread Hparse Hinstalled Hweb.
  exists "Cannot read properties of undefined (reading 'client_id')".
  assert (Hres :
    resolve_credentials w =
    mkOutcome w []
      (inl (ErrorObj
              "Cannot read properties of undefined (reading 'client_id')"))).
  { unfold resolve_credentials.
    rewrite (bind_value _ _ w true)
      by (unfold fs_existsSync; rewrite Hfile; reflexivity).
    cbv beta iota.
    rewrite (bind_value _ _ w text)
      by (unfold fs_readFileSync; rewrite Hread; reflexivity).
    rewrite (bind_value _ _ w (VObj fields))
      by (unfold lift; rewrite Hparse; reflexivity).
    rewrite (bind_value _ _ w VUndefined)
      by (unfold lift; cbn [get_prop]; rewrite Hinstalled; reflexivity).
    cbn [truthy].
    rewrite (bind_value _ _ w VUndefined)
      by (unfold lift; cbn [get_prop]; rewrite Hweb; reflexivity).
    reflexivity. }
  unfold authenticate, bind at 1. rewrite Hres. reflexivity.
Qed.

(** The run of [authenticate] once the client credentials are resolved. *)
Lemma authenticate_resolved (w : world) (id secret uri : value) :
  result (resolve_credentials w) = inr (id, secret, uri) ->
  authenticate w =
  bind (check_saved_token (mkOAuth2Client id secret uri (VObj [])))
       (fun checked =>
          let '(returned, auth) := checked in
          if returned then ret auth else authorize auth) w.
Proof.
  intros Hres.
  pose proof (silent_value _ w _ resolve_credentials_silent Hres) as Hcreds.
  unfold authenticate. rewrite (bind_value _ _ _ _ Hcreds). reflexivity.
Qed.

(** X4.  On a machine without [token.json], [authenticate] makes no profile
    probe: once the client credentials are resolved the whole run is the
    interactive authorization, which prints the authorization URL. *)
Theorem authenticate_first_run (w : world) (id secret uri : value) :
  result (resolve_credentials w) = inr (id, secret, uri) ->
  existsSync w "token.json" = false ->
  let auth := mkOAuth2Client id secret uri (VObj []) in
  authenticate w = authorize auth w
  /\ probes (trace (authenticate w)) = []
  /\ In ("   " ++ generateAuthUrl auth ++ nl)%string
        (logged (trace (authenticate w))).
Proof.
  intros Hres Hfile auth.
  assert (Hrun : authenticate w = authorize auth w).
  { rewrite (authenticate_resolved _ _ _ _ Hres). fold auth.
    assert (Hcheck :
      check_saved_token auth w = mkOutcome w [] (inr (false, auth))).
    { unfold check_saved_token.
      rewrite (bind_value _ _ w false)
        by (unfold fs_existsSync; rewrite Hfile; reflexivity).
      reflexivity. }
    rewrite (bind_value _ _ _ _ Hcheck). reflexivity. }
  rewrite Hrun. split; [reflexivity|]. split.
  - apply authorize_no_probe.
  - apply authorize_prints_url.
Qed.

(** X5.  A [token.json] that cannot be read or does not parse is not
    treated as an expired token: [authenticate] throws the error of the
    read or of [JSON.parse], with no probe, no prompt and nothing printed. *)
Theorem authenticate_unreadable_token (w : world) (id secret uri : value)
  (e : thrown) :
  result (resolve_credentials w) = inr (id, secret, uri) ->
  existsSync w "token.json" = true ->
  readFileSync w "token.json" = inl e
  \/ (exists text, readFileSync w "token.json" = inr text
                   /\ JSON_parse text = inl e) ->
  authenticate w = mkOutcome w [] (inl e).
Proof.
  intros Hres Hfile Hbad.
  rewrite (authenticate_resolved _ _ _ _ Hres).
  set (auth := mkOAuth2Client id secret uri (VObj [])).
  assert (Hcheck : check_saved_token auth w = mkOutcome w [] (inl e)).
  { unfold check_saved_token.
    rewrite (bind_value _ _ w true)
      by (unfold fs_existsSync; rewrite Hfile; reflexivity).
    cbv beta iota.
    destruct Hbad as [Hread | (text & Hread & Hparse)].
    - unfold bind, fs_readFileSync. cbn [result final trace].
      rewrite Hread. reflexivity.
    - rewrite (bind_value _ _ w text)
        by (unfold fs_readFileSync; rewrite Hread; reflexivity).
      unfold bind, lift. cbn [result final trace].
      rewrite Hparse. reflexivity. }
  unfold bind. rewrite Hcheck. reflexivity.
Qed.

Lemma instructions_quiet (auth : OAuth2Client) :
  prompts (instructions auth) = [] /\ exchanges (instructions auth) = []
  /\ writes (instructions auth) = [] /\ probes (instructions auth) = [].
Proof. repeat split. Qed.

(** X6.  The code that [authenticate] exchanges during the interactive
    authorization: when [AUTH_CODE] is set and not empty it is that value,
    as it is, and nobody is prompted; otherwise the operator is prompted
    once and a non-blank answer is exchanged trimmed. *)
Theorem authorize_code_source (auth : OAuth2Client) (w : world) :
  let tr := trace (authorize auth w) in
  (forall code,
     process_env w "AUTH_CODE" = Some code -> str_truthy code = true ->
     prompts tr = []
     /\ map (fun x => fst x) (exchanges tr) = [(auth, code)])
  /\ (forall w0 answer,
        set_and_truthy (process_env w "AUTH_CODE") = false ->
        rl_question w "Paste the authorization code here: " = (w0, answer) ->
        str_truthy (trim answer) = true ->
        prompts tr = ["Paste the authorization code here: "]
        /\ map (fun x => fst x) (exchanges tr) = [(auth, trim answer)]).
Proof.
  cbv zeta. rewrite authorize_parts. cbn [trace].
  rewrite prompts_app, exchanges_app.
  destruct (instructions_quiet auth) as (-> & -> & _).
  cbn [app]. split.
  - intros code Henv Hcode.
    rewrite (exchange_code_env _ _ _ Henv Hcode), save_token_outcome.
    destruct (auth_getToken w auth code) as [w1 [e|tokens]];
      [split; reflexivity|].
    destruct (writeFileSync w1 "token.json" (JSON_stringify tokens))
      as [w2 [e|[]]]; split; reflexivity.
  - intros w0 answer Henv Hq Hcode.
    rewrite (exchange_code_prompt _ _ _ _ Henv Hq), Hcode.
    cbn [trace prompts exchanges]. rewrite save_token_outcome.
    destruct (auth_getToken w0 auth (trim answer)) as [w1 [e|tokens]];
      [split; reflexivity|].
    destruct (writeFileSync w1 "token.json" (JSON_stringify tokens))
      as [w2 [e|[]]]; split; reflexivity.
Qed.

(** X7.  When [AUTH_CODE] is unset or empty and the operator's answer trims
    to nothing, the interactive authorization throws "Authorization code is
    required" right after the prompt: no code is exchanged and no file is
    written. *)
Theorem authorize_blank_answer (auth : OAuth2Client) (w w0 : world)
  (answer : string) :
  set_and_truthy (process_env w "AUTH_CODE") = false ->
  rl_question w "Paste the authorization code here: " = (w0, answer) ->
  str_truthy (trim answer) = false ->
  authorize auth w =
  mkOutcome w0
    (instructions auth
     ++ [prompt "Paste the authorization code here: " answer])%list
    (inl (ErrorObj
            "Authorization code is required. Please run again and provide the code."))
  /\ exchanges (trace (authorize auth w)) = []
  /\ writes (trace (authorize auth w)) = [].
Proof.
  intros Henv Hq Hcode.
  rewrite authorize_parts, (exchange_code_prompt _ _ _ _ Henv Hq), Hcode.
  cbn [final trace result].
  rewrite exchanges_app, writes_app.
  destruct (instructions_quiet auth) as (_ & -> & -> & _).
  repeat split.
Qed.

(** The authorization with the code in [AUTH_CODE], when the exchange and
    the write succeed. *)
Lemma authorize_env_outcome (auth : OAuth2Client) (w w1 w2 : world)
  (code : string) (tokens : value) :
  process_env w "AUTH_CODE" = Some code -> str_truthy code = true ->
  auth_getToken w auth code = (w1, inr tokens) ->
  writeFileSync w1 "token.json" (JSON_stringify tokens) = (w2, inr tt) ->
  authorize auth w =
  mkOutcome w2
    (instructions auth
     ++ [getToken_request auth code None;
         file_write "token.json" (JSON_stringify tokens) None;
         console_log "Token stored to token.json"])%list
    (inr (setCredentials auth tokens)).
Proof.
  intros Henv Hcode Htoken Hwrite.
  rewrite authorize_parts, (exchange_code_env _ _ _ Henv Hcode),
    save_token_outcome, Htoken, Hwrite.
  reflexivity.
Qed.

(** X8.  However the code was obtained, from [AUTH_CODE] or typed by the
    operator, when its exchange and the write that follows both succeed the
    interactive authorization ends with the new tokens as the client's
    credentials and with [JSON.stringify(tokens)] written to [token.json],
    once, after the exchange; its last three events are the exchange, the
    write and the line that says the token is stored. *)
Theorem authorize_saves_token (auth : OAuth2Client) (w w0 w1 w2 : world)
  (code : string) (tokens : value) :
  (process_env w "AUTH_CODE" = Some code /\ str_truthy code = true
   /\ w0 = w)
  \/ (set_and_truthy (process_env w "AUTH_CODE") = false
      /\ exists answer,
           rl_question w "Paste the authorization code here: "
           = (w0, answer)
           /\ code = trim answer /\ str_truthy code = true) ->
  auth_getToken w0 auth code = (w1, inr tokens) ->
  writeFileSync w1 "token.json" (JSON_stringify tokens) = (w2, inr tt) ->
  let o := authorize auth w in
  result o = inr (setCredentials auth tokens)
  /\ final o = w2
  /\ exchanges (trace o) = [(auth, code, None)]
  /\ writes (trace o) = [("token.json", JSON_stringify tokens, None)]
  /\ exists before,
       trace o
       = (before
          ++ [getToken_request auth code None;
              file_write "token.json" (JSON_stringify tokens) None;
              console_log "Token stored to token.json"])%list.
Proof.
  intros Hcode Htoken Hwrite. cbv zeta.
  assert (Hsave :
    save_token auth code w0 =
    mkOutcome w2
      [getToken_request auth code None;
       file_write "token.json" (JSON_stringify tokens) None;
       console_log "Token stored to token.json"]
      (inr (setCredentials auth tokens))).
  { rewrite save_token_outcome, Htoken, Hwrite. reflexivity. }
  rewrite authorize_parts. cbn [result final trace].
  rewrite exchanges_app, writes_app.
  destruct (instructions_quiet auth) as (_ & -> & -> & _). cbn [app].
  destruct Hcode as [(Henv & Htruthy & ->) | (Henv & answer & Hq & -> & Htruthy)].
  - rewrite (exchange_code_env _ _ _ Henv Htruthy), Hsave.
    cbn [result final trace].
    repeat split. exists (instructions auth). reflexivity.
  - rewrite (exchange_code_prompt _ _ _ _ Henv Hq), Htruthy, Hsave.
    cbn [result final trace].
    repeat split.
    exists (instructions auth
            ++ [prompt "Paste the authorization code here: " answer])%list.
    rewrite <- app_assoc. reflexivity.
Qed.




(** X10.  An expired saved token leads to exactly one re-authorization
    when [AUTH_CODE] holds a code and its exchange and the write succeed:
    after the failed probe the code is exchanged, by the client that still
    carries the stale token, nobody is prompted, the new tokens replace the
    stale one and [token.json] is overwritten with them. *)
Theorem authenticate_expired_token_reauthorizes (w w' w1 w2 : world)
  (id secret uri : value) (text code : string) (token tokens : value)
  (e : thrown) :
  result (resolve_credentials w) = inr (id, secret, uri) ->
  existsSync w "token.json" = true ->
  readFileSync w "token.json" = inr text ->
  JSON_parse text = inr token ->
  let stale := mkOAuth2Client id secret uri token in
  users_getProfile w stale = (w', inl e) ->
  process_env w' "AUTH_CODE" = Some code -> str_truthy code = true ->
  auth_getToken w' stale code = (w1, inr tokens) ->
  writeFileSync w1 "token.json" (JSON_stringify tokens) = (w2, inr tt) ->
  let o := authenticate w in
  result o = inr (mkOAuth2Client id secret uri tokens)
  /\ final o = w2
  /\ probes (trace o) = [(stale, Some e)]
  /\ prompts (trace o) = []
  /\ exchanges (trace o) = [(stale, code, None)]
  /\ writes (trace o) = [("token.json", JSON_stringify tokens, None)].
Proof.
  intros Hres Hfile Hread Hparse stale Hprobe Henv Hcode Htoken Hwrite.
  cbv zeta.
  rewrite (authenticate_resolved _ _ _ _ Hres).
  pose proof (check_saved_token_probe
                (mkOAuth2Client id secret uri (VObj [])) w w' text token _
                Hfile Hread Hparse Hprobe) as Hcheck.
  rewrite (bind_outcome _ _ _ _ _ _ Hcheck). cbv beta iota.
  change (setCredentials (mkOAuth2Client id secret uri (VObj [])) token)
    with stale.
  rewrite (authorize_env_outcome _ _ _ _ _ _ Henv Hcode Htoken Hwrite).
  cbn [result final trace].
  rewrite !probes_app, !prompts_app, !exchanges_app, !writes_app.
  destruct (instructions_quiet stale) as (-> & -> & -> & ->).
  repeat split.
Qed.

End AuthBehaviour.

(** ** [searchEmails]: failures, bounds and footprint *)

Section SearchBehaviour.

Context `{Host}.

(** The three ways a search can go. *)
Lemma searchEmails_cases (config : SearchConfig) (w : world) :
  let q := join " AND " (build_queryParts config) in
  let n := Math_min (maxResults_or_default config) (Num 500) in
  let logs :=
    [console_log ("Searching for emails with query: " ++ q);
     console_log ("Max results: "
                  ++ num_to_string (maxResults_or_default config))] in
  (build_queryParts config = []
   /\ searchEmails config w =
      mkOutcome w []
        (inl (ErrorObj "At least one sender or subject must be specified")))
  \/ (exists w1 e,
        messages_list w q n = (w1, inl e)
        /\ searchEmails config w =
           mkOutcome w1 (logs ++ [list_request q n (inl e)])%list (inl e))
  \/ (exists w1 response,
        messages_list w q n = (w1, inr response)
        /\ searchEmails config w =
           mkOutcome (final (fetchLoop (listed response) [] w1))
             (logs ++ list_request q n (inr response)
                      :: trace (fetchLoop (listed response) [] w1))%list
             (result (fetchLoop (listed response) [] w1))).
Proof.
  cbv zeta.
  destruct (build_queryParts config) as [|part parts] eqn:Hparts.
  { left. split; [reflexivity|]. apply searchEmails_invalid, Hparts. }
  assert (Hne : build_queryParts config <> []) by congruence.
  rewrite <- Hparts.
  destruct (messages_list w (join " AND " (build_queryParts config))
              (Math_min (maxResults_or_default config) (Num 500)))
    as [w1 [e|response]] eqn:E; right; [left | right].
  - exists w1, e. split; [reflexivity|].
    apply (searchEmails_rejected _ _ _ _ Hne E).
  - exists w1, response. split; [reflexivity|].
    apply (searchEmails_answered _ _ _ _ Hne E).
Qed.

Lemma take_units_bound (s : string) :
  forall n, units (take_units n s) <= n.
Proof.
  induction s as [|c s IH]; intros n; cbn [take_units]; [cbn; lia|].
  destruct (continuation c) eqn:Hc.
  - cbn [units]. rewrite Hc. apply IH.
  - destruct n as [|n]; [cbn; lia|].
    destruct (four_bytes c) eqn:Hf.
    + destruct n as [|n]; [vm_compute; lia|].
      cbn [units]. rewrite Hc, Hf. specialize (IH n). lia.
    + cbn [units]. rewrite Hc, Hf. specialize (IH n). lia.
Qed.

(** On text of plain ASCII a unit is a byte. *)
Lemma take_units_ascii (s : string) :
  forall n,
    (forall c, has_char c s = true -> Nat.ltb (nat_of_ascii c) 128 = true) ->
    take_units n s = substring 0 n s /\ units s = String.length s.
Proof.
  induction s as [|c s IH]; intros n Hascii; [destruct n; split; reflexivity|].
  assert (Hc : Nat.ltb (nat_of_ascii c) 128 = true).
  { apply Hascii. cbn. rewrite Ascii.eqb_refl. reflexivity. }
  assert (Hrest : forall x, has_char x s = true ->
                            Nat.ltb (nat_of_ascii x) 128 = true).
  { intros x Hx. apply Hascii. cbn. rewrite Hx. apply orb_true_r. }
  apply Nat.ltb_lt in Hc.
  assert (Hcont : continuation c = false).
  { unfold continuation. destruct (Nat.leb_spec 128 (nat_of_ascii c));
      [lia | reflexivity]. }
  assert (Hfour : four_bytes c = false).
  { unfold four_bytes. apply Nat.leb_gt. lia. }
  cbn [take_units units]. rewrite Hcont, Hfour.
  destruct n as [|n].
  - split; [reflexivity|]. destruct (IH 0 Hrest) as [_ ->]. reflexivity.
  - destruct (IH n Hrest) as [-> ->]. split; reflexivity.
Qed.

Lemma matches_of_Forall (P : EmailMatch -> Prop) (ms : list message) :
  (forall m snippet, In m ms -> P (match_of m snippet)) ->
  forall answers, Forall P (matches_of ms answers).
Proof.
  induction ms as [|m ms IH]; intros HP [|[e|sn] answers]; cbn;
    try constructor.
  - apply IH. intros; apply HP; right; assumption.
  - apply HP. left. reflexivity.
  - apply IH. intros; apply HP; right; assumption.
Qed.

Lemma filter_length_le {A : Type} (p : A -> bool) (l : list A) :
  List.length (filter p l) <= List.length l.
Proof.
  induction l as [|a l IH]; [reflexivity|].
  cbn. destruct (p a); cbn; lia.
Qed.

(** X11.  When the listing call fails, [searchEmails] throws its error: no
    metadata request is made and nothing is written to the error stream. *)
Theorem searchEmails_listing_failure (config : SearchConfig) (w w1 : world)
  (q : string) (n : jsnum) (e : thrown) :
  let o := searchEmails config w in
  listings (trace o) = [(q, n)] ->
  messages_list w q n = (w1, inl e) ->
  result o = inl e /\ final o = w1
  /\ fetches (trace o) = [] /\ error_lines (trace o) = [].
Proof.
  cbv zeta. intros Hl E.
  apply searchEmails_listings_inv in Hl. destruct Hl as (Hne & -> & ->).
  rewrite (searchEmails_rejected _ _ _ _ Hne E). repeat split.
Qed.

(** X12.  Every match that [searchEmails] returns has a non-empty id and a
    snippet of at most 100 UTF-16 units, the way the runtime counts the
    length of a string. *)
Theorem searchEmails_matches_bounded (config : SearchConfig) (w : world)
  (matches : list EmailMatch) :
  result (searchEmails config w) = inr matches ->
  Forall (fun m => str_truthy (id m) = true
                   /\ units (snippet m) <= 100) matches.
Proof.
  intros Hres.
  destruct (searchEmails_cases config w)
    as [[_ Hrun] | [(w1 & e & _ & Hrun) | (w1 & response & _ & Hrun)]];
    rewrite Hrun in Hres; cbn [result] in Hres; try discriminate.
  destruct (fetchLoop_summary (listed response) [] w1) as (Hr & _).
  cbv zeta in Hr. rewrite Hr in Hres. injection Hres as <-.
  cbn [app]. apply matches_of_Forall.
  intros m sn Hin. apply filter_In in Hin. destruct Hin as [_ Hid].
  split.
  - unfold has_id in Hid. cbn [match_of id].
    destruct (message_id m); [exact Hid | discriminate].
  - apply take_units_bound.
Qed.

(** X13.  In a search that returns, exactly one listing request was made
    and every metadata request ended either as a match or as one line on
    the error stream; there are no more requests than candidates listed. *)
Theorem searchEmails_accounting (config : SearchConfig) (w : world)
  (matches : list EmailMatch) :
  let tr := trace (searchEmails config w) in
  result (searchEmails config w) = inr matches ->
  List.length (listings tr) = 1
  /\ List.length matches + List.length (error_lines tr)
     = List.length (fetches tr)
  /\ List.length (fetches tr) <= List.length (candidates tr)
  /\ List.length matches <= List.length (candidates tr).
Proof.
  cbv zeta. intros Hres.
  destruct (searchEmails_cases config w)
    as [[_ Hrun] | [(w1 & e & _ & Hrun) | (w1 & response & _ & Hrun)]];
    rewrite Hrun in *; cbn [result trace] in *; try discriminate.
  destruct (fetchLoop_summary (listed response) [] w1)
    as (Hr & Hm & He & Hl & Hc & _).
  cbv zeta in Hr, Hm, He.
  assert (Hcand : forall logs q n rest,
            candidates logs = [] ->
            candidates (logs ++ list_request q n (inr response) :: rest)
            = (listed response ++ candidates rest)%list).
  { intros logs q n rest Hlogs. rewrite candidates_app, Hlogs.
    destruct response; reflexivity. }
  rewrite Hcand by reflexivity.
  rewrite listings_app, error_lines_app, fetches_app.
  cbn [listings error_lines fetches app].
  rewrite Hl, He, Hc, app_nil_r.
  set (f := fetches (trace (fetchLoop (listed response) [] w1))) in *.
  rewrite Hr in Hres. injection Hres as <-. cbn [app].
  assert (Hlen : List.length f
                 = List.length (filter has_id (listed response))).
  { rewrite <- (length_map fst f), Hm, length_map. reflexivity. }
  pose proof (matches_of_length _ f Hlen) as Hcount.
  pose proof (filter_length_le has_id (listed response)) as Hle.
  rewrite length_map.
  repeat split; try lia.
Qed.

(** X14.  When the listing answers without [messages], or with none,
    [searchEmails] returns no match and makes no metadata request. *)
Theorem searchEmails_empty_listing (config : SearchConfig) (w w1 : world)
  (q : string) (n : jsnum) (response : option (list message)) :
  let o := searchEmails config w in
  listings (trace o) = [(q, n)] ->
  messages_list w q n = (w1, inr response) ->
  response = None \/ response = Some [] ->
  result o = inr [] /\ final o = w1 /\ fetches (trace o) = [].
Proof.
  cbv zeta. intros Hl E Hempty.
  apply searchEmails_listings_inv in Hl. destruct Hl as (Hne & -> & ->).
  rewrite (searchEmails_answered _ _ _ _ Hne E).
  destruct Hempty as [-> | ->]; repeat split.
Qed.

Lemma searchEmails_only (config : SearchConfig) :
  emits_only search_event (searchEmails config).
Proof.
  unfold searchEmails.
  destruct (Nat.eqb (List.length (build_queryParts config)) 0);
    [only_step|].
  cbv zeta. do 2 (apply emits_only_bind; [only_step | intros _]).
  apply emits_only_bind; [only_step|]. intros response.
  apply fetchLoop_only.
Qed.

(** X15.  Whatever the service does, a run of [searchEmails] leaves only
    console lines, one listing request at most, and metadata requests: it
    never deletes a message, writes a file, prompts or touches the
    credentials. *)
Theorem searchEmails_footprint (config : SearchConfig) (w : world) :
  let tr := trace (searchEmails config w) in
  forallb search_event tr = true
  /\ deletions tr = []
  /\ filter (fun e => is_write e || is_prompt e || is_probe e
                      || is_exchange e) tr = []
  /\ List.length (listings tr) <= 1.
Proof.
  cbv zeta. pose proof (searchEmails_only config) as Honly.
  split; [apply Honly|]. split; [|split].
  - assert (Hd : filter is_deletion (trace (searchEmails config w)) = []).
    { apply (emits_only_filter search_event _ _ w Honly).
      intros [] He; try reflexivity; discriminate. }
    revert Hd. generalize (trace (searchEmails config w)).
    induction l as [|e l IH]; [reflexivity|].
    destruct e; cbn; try discriminate; exact IH.
  - apply (emits_only_filter search_event _ _ w Honly).
    intros [] He; try reflexivity; discriminate.
  - destruct (searchEmails_cases config w)
      as [[_ Hrun] | [(w1 & e & _ & Hrun) | (w1 & response & _ & Hrun)]];
      rewrite Hrun; cbn [trace]; rewrite ?listings_app; cbn; try lia.
    destruct (fetchLoop_summary (listed response) [] w1)
      as (_ & _ & _ & Hl & _).
    rewrite Hl. cbn. lia.
Qed.

End SearchBehaviour.

(** ** [batchDeleteEmails]: errors, small batches and footprint *)

Section DeleteBehaviour.

Context `{Host}.

Lemma deleteLoop_error_lines (messageIds : list string) :
  forall (n i : nat) (r : CleanupResult) (w : world),
    List.length messageIds - i <= n ->
    error_lines (trace (deleteLoop messageIds i r w))
    = map (fun line => (line, None))
          (failure_messages (deletions (trace (deleteLoop messageIds i r w)))).
Proof.
  induction n as [|n IH]; intros i r w Hn.
  - rewrite deleteLoop_done by lia. reflexivity.
  - destruct (le_lt_dec (List.length messageIds) i) as [Hdone|Hlt].
    + rewrite deleteLoop_done by lia. reflexivity.
    + rewrite deleteLoop_step by assumption.
      set (batch := slice messageIds i (i + batchSize)).
      destruct (messages_batchDelete w batch) as [w' [e|[]]] eqn:E.
      * unfold bind. rewrite (deleteBatch_failed _ _ _ _ _ E).
        cbn [result final trace].
        rewrite error_lines_app, deletions_app.
        cbn [error_lines deletions app failure_messages map].
        rewrite IH by (unfold batchSize; lia). reflexivity.
      * unfold bind. rewrite (deleteBatch_ok _ _ _ _ E).
        cbn [result final trace].
        rewrite error_lines_app, deletions_app.
        cbn [error_lines deletions app failure_messages map].
        rewrite IH by (unfold batchSize; lia). reflexivity.
Qed.

Lemma failure_messages_flat_map (d : list (list string * option thrown)) :
  failure_messages d
  = flat_map
      (fun r =>
         match snd r with
         | Some e => [("Error deleting batch: " ++ error_text e)%string]
         | None => []
         end) d.
Proof.
  induction d as [|[c [e|]] d IH];
    cbn [failure_messages flat_map snd app]; rewrite <- ?IH; reflexivity.
Qed.

(** X16.  The errors that [batchDeleteEmails] returns are the messages of
    the failed requests, in request order, each ["Error deleting batch: "]
    followed by the cause; they are exactly the lines written to the error
    stream, in the same order. *)
Theorem batchDeleteEmails_errors_in_order (messageIds : list string)
  (dryRun : bool) (w : world) :
  let o := batchDeleteEmails messageIds dryRun w in
  exists res,
    result o = inr res
    /\ errors res
       = flat_map
           (fun r =>
              match snd r with
              | Some e => [("Error deleting batch: " ++ error_text e)%string]
              | None => []
              end) (deletions (trace o))
    /\ error_lines (trace o) = map (fun line => (line, None)) (errors res).
Proof.
  cbv zeta. destruct dryRun.
  - eexists. split; [reflexivity|]. split; reflexivity.
  - destruct (batchDeleteEmails_summary messageIds w) as (Hr & _).
    cbv zeta in Hr. eexists. split; [exact Hr|].
    cbn [errors]. split; [apply failure_messages_flat_map|].
    unfold batchDeleteEmails.
    apply (deleteLoop_error_lines messageIds (List.length messageIds)).
    lia.
Qed.

Lemma chunk_count_small (n : nat) : 0 < n <= 1000 -> chunk_count n = 1.
Proof.
  intros Hn. unfold chunk_count.
  symmetry. apply Nat.div_unique with (r := n - 1); lia.
Qed.

(** X17.  Without [dryRun], between 1 and 1000 ids go out in a single
    request that carries them all, so the result is all or nothing: every id
    deleted and no error, or none deleted and one error. *)
Theorem batchDeleteEmails_single_request (messageIds : list string)
  (w : world) :
  0 < List.length messageIds <= 1000 ->
  let o := batchDeleteEmails messageIds false w in
  exists failure,
    deletions (trace o) = [(messageIds, failure)]
    /\ result o =
       inr (match failure with
            | None => mkCleanupResult (List.length messageIds)
                                      (List.length messageIds) []
            | Some e =>
                mkCleanupResult (List.length messageIds) 0
                  [("Error deleting batch: " ++ error_text e)%string]
            end).
Proof.
  intros Hn. cbv zeta.
  destruct (batchDeleteEmails_summary messageIds w) as (Hr & Hm & _).
  cbv zeta in Hr, Hm. rewrite (chunk_count_small _ Hn) in Hm.
  cbn [seq map] in Hm.
  assert (Hall : chunk messageIds 0 = messageIds).
  { unfold chunk, slice. cbn [Nat.mul Nat.add skipn].
    rewrite Nat.sub_0_r. apply firstn_all2. lia. }
  rewrite Hall in Hm.
  destruct (deletions (trace (batchDeleteEmails messageIds false w)))
    as [|[c f] [|]]; try discriminate.
  cbn [map fst] in Hm. injection Hm as ->.
  exists f. split; [reflexivity|]. rewrite Hr.
  unfold deleted_count, total_size.
  destruct f; cbn; [reflexivity|]. rewrite Nat.add_0_r. reflexivity.
Qed.

(** X18.  For every list of ids, the empty one included, a run without
    [dryRun] makes one request per started thousand of ids and no more;
    when all of them fail nothing is counted as deleted and [errors] has one
    entry per request. *)
Theorem batchDeleteEmails_request_count (messageIds : list string)
  (w : world) :
  let o := batchDeleteEmails messageIds false w in
  List.length (deletions (trace o)) = (List.length messageIds + 999) / 1000
  /\ (messageIds = [] -> o = mkOutcome w [] (inr (mkCleanupResult 0 0 [])))
  /\ (forallb failed (deletions (trace o)) = true ->
      exists res,
        result o = inr res /\ deleted res = 0
        /\ List.length (errors res)
           = (List.length messageIds + 999) / 1000).
Proof.
  cbv zeta.
  destruct (batchDeleteEmails_summary messageIds w) as (Hr & Hm & _).
  cbv zeta in Hr, Hm.
  assert (Hlen :
    List.length (deletions (trace (batchDeleteEmails messageIds false w)))
    = chunk_count (List.length messageIds)).
  { rewrite <- (length_map fst), Hm, length_map, length_seq. reflexivity. }
  split; [exact Hlen|]. split.
  - intros ->. unfold batchDeleteEmails.
    rewrite deleteLoop_done by (cbn; lia). reflexivity.
  - intros Hall. eexists. split; [exact Hr|]. cbn [deleted errors].
    rewrite failure_messages_length.
    set (d := deletions (trace (batchDeleteEmails messageIds false w))) in *.
    assert (Hf : filter failed d = d).
    { clear -Hall. induction d as [|r d IH]; [reflexivity|].
      cbn in *. apply andb_true_iff in Hall. destruct Hall as [-> Hall].
      rewrite (IH Hall). reflexivity. }
    assert (Hs : filter (fun r => negb (failed r)) d = []).
    { clear -Hall. induction d as [|r d IH]; [reflexivity|].
      cbn in *. apply andb_true_iff in Hall. destruct Hall as [-> Hall].
      cbn. apply IH, Hall. }
    split.
    + unfold deleted_count. rewrite Hs. reflexivity.
    + rewrite Hf. exact Hlen.
Qed.

Lemma batchDeleteEmails_only (messageIds : list string) (dryRun : bool) :
  emits_only delete_event (batchDeleteEmails messageIds dryRun).
Proof.
  unfold batchDeleteEmails. destruct dryRun.
  - repeat only_step.
  - apply (deleteLoop_only messageIds (List.length messageIds)). lia.
Qed.

(** X19.  Whatever the service does, a run of [batchDeleteEmails] leaves
    only console lines and deletion requests: it never lists or reads a
    message, writes a file, prompts or touches the credentials. *)
Theorem batchDeleteEmails_footprint (messageIds : list string)
  (dryRun : bool) (w : world) :
  let tr := trace (batchDeleteEmails messageIds dryRun w) in
  forallb delete_event tr = true
  /\ filter (fun e => negb (is_deletion e) && is_remote_call e) tr = []
  /\ filter (fun e => is_write e || is_prompt e) tr = [].
Proof.
  cbv zeta. pose proof (batchDeleteEmails_only messageIds dryRun) as Honly.
  split; [apply Honly|].
  split; apply (emits_only_filter delete_event _ _ w Honly);
    intros [] He; try reflexivity; discriminate.
Qed.

End DeleteBehaviour.

(** ** [main]: the command line as a whole *)

Section MainBehaviour.

Context `{Host}.

Variable parseInt : string -> jsnum.

Lemma chatter_log (line : string) : chatter (emit (console_log line)).
Proof. intros w. eexists. split; reflexivity. Qed.

Lemma chatter_ret : chatter (ret tt).
Proof. intros w. eexists. split; reflexivity. Qed.

Lemma chatter_bind (m : M unit) (k : unit -> M unit) :
  chatter m -> chatter (k tt) -> chatter (bind m k).
Proof.
  intros Hm Hk w. destruct (Hm w) as (tr & Em & Hl).
  destruct (Hk w) as (tr' & Ek & Hl').
  exists (tr ++ tr')%list. rewrite (bind_outcome _ _ _ _ _ _ Em), Ek.
  split; [reflexivity|]. rewrite forallb_app, Hl, Hl'. reflexivity.
Qed.

Lemma chatter_log_each {A : Type} (line : A -> nat -> string)
  (items : list A) :
  forall index, chatter (Cli.log_each line index items).
Proof.
  induction items as [|item items IH]; intros index; cbn [Cli.log_each].
  - apply chatter_ret.
  - apply chatter_bind; [apply chatter_log | apply IH].
Qed.

Lemma chatter_if (b : bool) (m m' : M unit) :
  chatter m -> chatter m' -> chatter (if b then m else m').
Proof. destruct b; auto. Qed.

(** Console chatter in front of a computation changes neither its result
    nor the calls it makes. *)
Lemma bind_chatter {B : Type} (p : event -> bool) (m : M unit)
  (k : unit -> M B) (w : world) :
  chatter m -> (forall e, is_log e = true -> p e = false) ->
  result (bind m k w) = result (k tt w)
  /\ final (bind m k w) = final (k tt w)
  /\ filter p (trace (bind m k w)) = filter p (trace (k tt w)).
Proof.
  intros Hm Hp. destruct (Hm w) as (tr & Em & Hl).
  rewrite (bind_outcome _ _ _ _ _ _ Em). cbn [result final trace].
  assert (Hnone : filter p tr = []).
  { clear -Hl Hp. rewrite forallb_forall in Hl.
    induction tr as [|e tr IH]; [reflexivity|].
    cbn. rewrite (Hp e) by (apply Hl; left; reflexivity).
    apply IH. intros x Hx. apply Hl. right. exact Hx. }
  rewrite filter_app, Hnone. repeat split.
Qed.

Lemma mail_not_log (e : event) : is_log e = true -> is_mail_call e = false.
Proof. destruct e; cbn; congruence. Qed.

Lemma filter_bind {A B : Type} (p : event -> bool) (m : M A) (k : A -> M B)
  (w : world) :
  filter p (trace (bind m k w)) =
  (filter p (trace (m w)) ++
   match result (m w) with
   | inl _ => []
   | inr a => filter p (trace (k a (final (m w))))
   end)%list.
Proof.
  rewrite trace_bind, filter_app. destruct (result (m w)); reflexivity.
Qed.

Lemma deletions_mail (tr : list event) :
  deletions (filter is_mail_call tr) = deletions tr.
Proof.
  induction tr as [|e tr IH]; [reflexivity|].
  destruct e; cbn; rewrite ?IH; reflexivity.
Qed.

Lemma fetches_mail (tr : list event) :
  fetches (filter is_mail_call tr) = fetches tr.
Proof.
  induction tr as [|e tr IH]; [reflexivity|].
  destruct e; cbn; rewrite ?IH; reflexivity.
Qed.

Lemma listings_mail (tr : list event) :
  listings (filter is_mail_call tr) = listings tr.
Proof.
  induction tr as [|e tr IH]; [reflexivity|].
  destruct e; cbn; rewrite ?IH; reflexivity.
Qed.

Lemma authenticate_no_mail (w : world) :
  filter is_mail_call (trace (authenticate w)) = [].
Proof.
  apply (emits_only_filter auth_event _ _ w authenticate_only).
  intros [] He; try reflexivity; discriminate.
Qed.

Tactic Notation "skip_chatter" constr(w) uconstr(C) :=
  match goal with
  | |- context [result (bind ?m ?k w)] =>
      destruct (bind_chatter is_mail_call m k w C mail_not_log)
        as (-> & _ & ->)
  end.

(** What the body of the [try] comes to: its result, and the calls on
    messages it makes, in terms of the three methods it runs. *)
Lemma cleanup_summary (config : Cli.CleanupConfig) (w : world) :
  let o := Cli.cleanup config w in
  let oa := authenticate w in
  match result oa with
  | inl e =>
      result o = inl e /\ filter is_mail_call (trace o) = []
  | inr _ =>
      let os := searchEmails (search_config config) (final oa) in
      match result os with
      | inl e =>
          result o = inl e
          /\ filter is_mail_call (trace o) = filter is_mail_call (trace os)
      | inr matches =>
          result o = inr None
          /\ filter is_mail_call (trace o) =
             (filter is_mail_call (trace os) ++
              if Nat.eqb (List.length matches) 0
                 || Cli.flag_set (Cli.dryRun config)
              then []
              else filter is_mail_call
                     (trace (batchDeleteEmails (map id matches) false
                                               (final os))))%list
      end
  end.
Proof.
  cbv zeta. unfold Cli.cleanup. fold (search_config config).
  skip_chatter w (chatter_log _).
  rewrite result_bind, filter_bind, authenticate_no_mail. cbn [app].
  destruct (result (authenticate w)) as [e|auth]; [split; reflexivity|].
  set (w1 := final (authenticate w)).
  skip_chatter w1 (chatter_log _).
  rewrite result_bind, filter_bind.
  destruct (result (searchEmails (search_config config) w1))
    as [e|matches]; [split; [reflexivity | apply app_nil_r]|].
  set (w2 := final (searchEmails (search_config config) w1)).
  skip_chatter w2 (chatter_log _).
  destruct (Nat.eqb (List.length matches) 0); cbn [orb].
  { skip_chatter w2 (chatter_log _). split; reflexivity. }
  skip_chatter w2 (chatter_log _).
  skip_chatter w2 (chatter_log_each _ _ _).
  skip_chatter w2 (chatter_if _ _ _ (chatter_log _) chatter_ret).
  destruct (Cli.flag_set (Cli.dryRun config)).
  { skip_chatter w2 (chatter_log _). split; reflexivity. }
  do 3 skip_chatter w2 (chatter_log _).
  rewrite result_bind, filter_bind.
  destruct (batchDeleteEmails_summary (map id matches) w2) as (Hr & _).
  cbv zeta in Hr. rewrite Hr.
  set (w3 := final (batchDeleteEmails (map id matches) false w2)).
  set (res := mkCleanupResult _ _ _).
  do 3 skip_chatter w3 (chatter_log _).
  skip_chatter w3
    (chatter_if _ _ _
       (chatter_bind _ _ (chatter_log _) (chatter_log_each _ _ _))
       chatter_ret).
  cbn [ret result trace filter]. rewrite app_nil_r. split; reflexivity.
Qed.

Lemma parse_args_fields (args : list string) :
  let config := Cli.parse_args parseInt args in
  Cli.senders config
  = option_map (fun v => map trim (Cli.split_commas v))
               (Cli.flag_value "--senders" args)
  /\ Cli.subjects config
     = option_map (fun v => map trim (Cli.split_commas v))
                  (Cli.flag_value "--subjects" args)
  /\ Cli.maxResults config
     = Some (match Cli.flag_value "--max-results" args with
             | Some v => parseInt v
             | None => Num 500
             end)
  /\ Cli.dryRun config = Some (Cli.includes "--dry-run" args).
Proof.
  cbv zeta. unfold Cli.parse_args.
  destruct (Cli.flag_value "--senders" args),
    (Cli.flag_value "--subjects" args),
    (Cli.flag_value "--max-results" args); repeat split.
Qed.

(** The three ways [main] can go: help, missing criteria, or the [try]
    around the cleanup, whose error, if any, becomes exit status 1. *)
Lemma main_cases (args : list string) (w : world) :
  let config := Cli.parse_args parseInt args in
  let o := Cli.main parseInt args w in
  (Cli.includes "--help" args || Cli.includes "-h" args = true
   /\ o = mkOutcome w [console_log Cli.help_text] (inr (Some 0)))
  \/ (Cli.includes "--help" args || Cli.includes "-h" args = false
      /\ Cli.senders config = None /\ Cli.subjects config = None
      /\ o = mkOutcome w
               [console_error
                  "Error: At least one of --senders or --subjects must be specified"
                  None;
                console_log "Use --help for usage information"]
               (inr (Some 1)))
  \/ (Cli.includes "--help" args || Cli.includes "-h" args = false
      /\ (Cli.senders config <> None \/ Cli.subjects config <> None)
      /\ let oc := Cli.cleanup config w in
         match result oc with
         | inl e =>
             o = mkOutcome (final oc)
                   (trace oc
                    ++ [console_error "Error:"
                          (Some (NonError (error_text e)))])%list
                   (inr (Some 1))
         | inr _ => o = oc
         end).
Proof.
  cbv zeta. unfold Cli.main.
  destruct (Cli.includes "--help" args || Cli.includes "-h" args);
    [left; split; reflexivity|].
  right.
  destruct (Cli.senders (Cli.parse_args parseInt args)) as [ss|] eqn:Hs;
    [|destruct (Cli.subjects (Cli.parse_args parseInt args)) as [js|] eqn:Hj].
  - right. split; [reflexivity|]. split; [left; discriminate|].
    cbn [Cli.given negb andb]. unfold try_catch.
    destruct (result (Cli.cleanup (Cli.parse_args parseInt args) w));
      [reflexivity|].
    destruct (Cli.cleanup (Cli.parse_args parseInt args) w); reflexivity.
  - right. split; [reflexivity|]. split; [right; discriminate|].
    cbn [Cli.given negb andb]. unfold try_catch.
    destruct (result (Cli.cleanup (Cli.parse_args parseInt args) w));
      [reflexivity|].
    destruct (Cli.cleanup (Cli.parse_args parseInt args) w); reflexivity.
  - left. repeat split.
Qed.

Lemma searchEmails_no_deletion (config : SearchConfig) (w : world) :
  deletions (trace (searchEmails config w)) = [].
Proof.
  destruct (searchEmails_cases config w)
    as [[_ Hrun] | [(w1 & e & _ & Hrun) | (w1 & response & _ & Hrun)]];
    rewrite Hrun; cbn [trace]; rewrite ?deletions_app; try reflexivity.
  destruct (fetchLoop_summary (listed response) [] w1)
    as (_ & _ & _ & _ & _ & Hd).
  cbn [deletions app]. exact Hd.
Qed.

Lemma searchEmails_result_ids (config : SearchConfig) (w : world)
  (matches : list EmailMatch) :
  result (searchEmails config w) = inr matches ->
  map id matches
  = map fst (filter (fun r => negb (rejected r))
                    (fetches (trace (searchEmails config w)))).
Proof.
  intros Hres.
  destruct (searchEmails_cases config w)
    as [[_ Hrun] | [(w1 & e & _ & Hrun) | (w1 & response & _ & Hrun)]];
    rewrite Hrun in *; cbn [result trace] in *; try discriminate.
  destruct (fetchLoop_summary (listed response) [] w1) as (Hr & Hm & _).
  cbv zeta in Hr, Hm. rewrite Hr in Hres. injection Hres as <-.
  rewrite fetches_app. cbn [fetches app].
  apply matches_of_ids, Hm.
Qed.

Lemma batchDeleteEmails_no_fetch (messageIds : list string) (w : world) :
  fetches (trace (batchDeleteEmails messageIds false w)) = []
  /\ listings (trace (batchDeleteEmails messageIds false w)) = [].
Proof.
  unfold batchDeleteEmails.
  destruct (deleteLoop_summary messageIds (List.length messageIds) 0
              (mkCleanupResult (List.length messageIds) 0 []) w
              ltac:(lia)) as (_ & _ & _ & Hl & Hf).
  split; assumption.
Qed.

(** X20.  With [--help] or [-h] among the arguments, [main] prints the
    usage text and exits with status 0; it does nothing else, whatever the
    other arguments are, the search criteria missing included. *)
Theorem main_help (args : list string) (w : world) :
  Cli.includes "--help" args || Cli.includes "-h" args = true ->
  Cli.main parseInt args w =
  mkOutcome w [console_log Cli.help_text] (inr (Some 0)).
Proof.
  intros Hhelp.
  destruct (main_cases args w)
    as [[_ Hrun] | [(Hno & _) | (Hno & _)]];
    [exact Hrun | congruence | congruence].
Qed.

(** X21.  When help is not asked for ([--help] and [-h] both absent) and
    there is neither a usable [--senders] nor a usable [--subjects] (the
    flag absent, last on the line, or followed by an empty argument), [main]
    reports the missing criteria and exits with status 1 before it
    authenticates: nothing is read, asked or sent. *)
Theorem main_missing_criteria (args : list string) (w : world) :
  Cli.includes "--help" args || Cli.includes "-h" args = false ->
  Cli.flag_value "--senders" args = None ->
  Cli.flag_value "--subjects" args = None ->
  Cli.main parseInt args w =
  mkOutcome w
    [console_error
       "Error: At least one of --senders or --subjects must be specified"
       None;
     console_log "Use --help for usage information"]
    (inr (Some 1)).
Proof.
  intros Hhelp Hs Hj.
  destruct (parse_args_fields args) as (Es & Ej & _).
  rewrite Hs in Es. rewrite Hj in Ej. cbn in Es, Ej.
  destruct (main_cases args w)
    as [[Hyes _] | [(_ & _ & _ & Hrun) | (_ & [Hne|Hne] & _)]];
    [congruence | exact Hrun | congruence | congruence].
Qed.

(** The calls on messages in a run of [main], and its exit status, in terms
    of the cleanup. *)
Lemma main_mail (args : list string) (w : world) :
  let o := Cli.main parseInt args w in
  let oc := Cli.cleanup (Cli.parse_args parseInt args) w in
  filter is_mail_call (trace o) = []
  \/ (filter is_mail_call (trace o) = filter is_mail_call (trace oc)
      /\ Cli.includes "--help" args || Cli.includes "-h" args = false
      /\ result o = inr (match result oc with
                         | inl _ => Some 1
                         | inr status => status
                         end)).
Proof.
  cbv zeta.
  destruct (main_cases args w)
    as [[_ Hrun] | [(_ & _ & _ & Hrun) | (Hno & _ & Hrun)]].
  - left. rewrite Hrun. reflexivity.
  - left. rewrite Hrun. reflexivity.
  - right. cbv zeta in Hrun.
    destruct (result (Cli.cleanup (Cli.parse_args parseInt args) w))
      as [e|status] eqn:Hres.
    + rewrite Hrun. cbn [trace result]. rewrite filter_app. cbn.
      rewrite app_nil_r. repeat split. exact Hno.
    + rewrite Hrun, Hres. repeat split. exact Hno.
Qed.

(** X22.  With [--dry-run] among the arguments, no run of [main] issues a
    deletion request, whatever the machine, the operator and the service
    do. *)
Theorem main_dry_run_never_deletes (args : list string) (w : world) :
  Cli.includes "--dry-run" args = true ->
  deletions (trace (Cli.main parseInt args w)) = [].
Proof.
  intros Hdry. rewrite <- deletions_mail.
  destruct (main_mail args w) as [-> | (-> & _)]; [reflexivity|].
  pose proof (cleanup_summary (Cli.parse_args parseInt args) w) as Hsum.
  cbv zeta in Hsum.
  destruct (parse_args_fields args) as (_ & _ & _ & Edry).
  rewrite Edry, Hdry in Hsum. cbn [Cli.flag_set] in Hsum.
  destruct (result (authenticate w)) as [e|auth].
  - destruct Hsum as [_ ->]. reflexivity.
  - destruct (result (searchEmails _ (final (authenticate w))))
      as [e|matches].
    + destruct Hsum as [_ ->].
      rewrite deletions_mail. apply searchEmails_no_deletion.
    + destruct Hsum as [_ ->]. rewrite orb_true_r, app_nil_r.
      rewrite deletions_mail. apply searchEmails_no_deletion.
Qed.

(** X23.  Without [--dry-run], the ids that [main] sends for deletion, put
    end to end in request order, are exactly the ids whose metadata request
    was answered, in listing order: nothing else is deleted, and nothing
    found is left out. *)
Theorem main_deletes_what_was_fetched (args : list string) (w : world) :
  Cli.includes "--dry-run" args = false ->
  let tr := trace (Cli.main parseInt args w) in
  List.concat (map fst (deletions tr))
  = map fst (filter (fun r => negb (rejected r)) (fetches tr)).
Proof.
  intros Hdry. cbv zeta.
  rewrite <- deletions_mail, <- fetches_mail.
  destruct (main_mail args w) as [-> | (-> & _)]; [reflexivity|].
  pose proof (cleanup_summary (Cli.parse_args parseInt args) w) as Hsum.
  cbv zeta in Hsum.
  destruct (parse_args_fields args) as (_ & _ & _ & Edry).
  rewrite Edry, Hdry in Hsum. cbn [Cli.flag_set] in Hsum.
  destruct (result (authenticate w)) as [e|auth].
  { destruct Hsum as [_ ->]. reflexivity. }
  set (sc := search_config (Cli.parse_args parseInt args)) in *.
  set (w1 := final (authenticate w)) in *.
  destruct (result (searchEmails sc w1)) as [e|matches] eqn:Hres.
  { destruct Hsum as [_ ->]. rewrite deletions_mail, fetches_mail.
    rewrite searchEmails_no_deletion.
    destruct (searchEmails_cases sc w1)
      as [[_ Hrun] | [(w2 & e' & _ & Hrun) | (w2 & response & _ & Hrun)]];
      rewrite Hrun in *; cbn [result trace] in *;
      rewrite ?fetches_app; try reflexivity.
    destruct (fetchLoop_summary (listed response) [] w2) as (Hr & _).
    cbv zeta in Hr. congruence. }
  destruct Hsum as [_ ->]. rewrite orb_false_r.
  pose proof (searchEmails_result_ids sc w1 matches Hres) as Hids.
  destruct (Nat.eqb (List.length matches) 0) eqn:Hempty.
  - rewrite app_nil_r, deletions_mail, fetches_mail.
    rewrite searchEmails_no_deletion, <- Hids.
    apply Nat.eqb_eq in Hempty. apply length_zero_iff_nil in Hempty.
    rewrite Hempty. reflexivity.
  - rewrite deletions_app, fetches_app, !deletions_mail, !fetches_mail.
    rewrite searchEmails_no_deletion. cbn [app].
    destruct (batchDeleteEmails_no_fetch (map id matches)
                (final (searchEmails sc w1))) as [-> _].
    rewrite app_nil_r, <- Hids.
    destruct (batchDeleteEmails_summary (map id matches)
                (final (searchEmails sc w1))) as (_ & _ & Hc).
    exact Hc.
Qed.

Lemma searchEmails_listings_capped (config : SearchConfig) (w : world) :
  List.length (listings (trace (searchEmails config w))) <= 1
  /\ Forall (fun l => exists k, snd l = Num k /\ (k <= 500)%Z)
            (listings (trace (searchEmails config w))).
Proof.
  destruct (build_queryParts config) as [|part parts] eqn:Hparts.
  - rewrite (searchEmails_invalid _ _ Hparts). cbn. split; [lia|constructor].
  - assert (Hne : build_queryParts config <> []) by congruence.
    rewrite (searchEmails_listings _ w Hne). split; [reflexivity|].
    constructor; [|constructor]. apply maxResults_cap.
Qed.

(** The body of the [try] either throws before any deletion or runs to
    its end. *)
Lemma cleanup_result (config : Cli.CleanupConfig) (w : world) :
  (exists e, result (Cli.cleanup config w) = inl e
             /\ deletions (trace (Cli.cleanup config w)) = [])
  \/ result (Cli.cleanup config w) = inr None.
Proof.
  pose proof (cleanup_summary config w) as Hsum. cbv zeta in Hsum.
  rewrite <- deletions_mail.
  destruct (result (authenticate w)) as [e|auth].
  { destruct Hsum as [-> ->]. left. exists e. split; reflexivity. }
  destruct (result (searchEmails _ (final (authenticate w))))
    as [e|matches].
  { destruct Hsum as [-> ->]. left. exists e.
    rewrite deletions_mail, searchEmails_no_deletion. split; reflexivity. }
  destruct Hsum as [-> _]. right. reflexivity.
Qed.

(** X24.  [main] never lets an error escape: every run ends with a status
    that is 0 exactly when help was asked for, 1, or none (a normal
    return).  Once a deletion request has gone out the run returns
    normally, so failed deletions do not turn into exit status 1. *)
Theorem main_exit_status (args : list string) (w : world) :
  let o := Cli.main parseInt args w in
  exists status,
    result o = inr status
    /\ (status = None \/ status = Some 0 \/ status = Some 1)
    /\ (status = Some 0 <->
        Cli.includes "--help" args || Cli.includes "-h" args = true)
    /\ (deletions (trace o) <> [] -> status = None).
Proof.
  cbv zeta.
  destruct (main_cases args w)
    as [[Hyes Hrun] | [(Hno & _ & _ & Hrun) | (Hno & _ & Hrun)]].
  - rewrite Hrun. exists (Some 0). cbn [result trace deletions].
    split; [reflexivity|]. split; [auto|]. split; [tauto | congruence].
  - rewrite Hrun. exists (Some 1). cbn [result trace deletions].
    split; [reflexivity|]. split; [auto|].
    split; [split; congruence | congruence].
  - cbv zeta in Hrun.
    destruct (cleanup_result (Cli.parse_args parseInt args) w)
      as [(e & Hres & Hdel) | Hres]; rewrite Hres in Hrun; rewrite Hrun.
    + exists (Some 1). cbn [result trace].
      rewrite deletions_app, Hdel. cbn [deletions app].
      split; [reflexivity|]. split; [auto|].
      split; [split; congruence | congruence].
    + exists None.
      split; [exact Hres|]. split; [auto|].
      split; [split; congruence | reflexivity].
Qed.

(** X25.  When [authenticate] or [searchEmails] throws, [main] writes
    ["Error:"] and the error's text to the error stream as its last act and
    exits with status 1; no deletion request is made. *)
Theorem main_failure_exit (args : list string) (w : world) (e : thrown) :
  let config := Cli.parse_args parseInt args in
  let o := Cli.main parseInt args w in
  Cli.includes "--help" args || Cli.includes "-h" args = false ->
  Cli.senders config <> None \/ Cli.subjects config <> None ->
  result (authenticate w) = inl e
  \/ (exists auth,
        result (authenticate w) = inr auth
        /\ result (searchEmails (search_config config)
                                (final (authenticate w))) = inl e) ->
  result o = inr (Some 1)
  /\ deletions (trace o) = []
  /\ exists tr,
       trace o
       = (tr ++ [console_error "Error:"
                   (Some (NonError (error_text e)))])%list.
Proof.
  cbv zeta. intros Hhelp Hcrit Hthrown.
  pose proof (cleanup_summary (Cli.parse_args parseInt args) w) as Hsum.
  cbv zeta in Hsum.
  assert (Hoc :
    result (Cli.cleanup (Cli.parse_args parseInt args) w) = inl e
    /\ deletions (trace (Cli.cleanup (Cli.parse_args parseInt args) w)) = []).
  { rewrite <- deletions_mail.
    destruct Hthrown as [Ha | (auth & Ha & Hs)].
    - rewrite Ha in Hsum. destruct Hsum as [-> ->]. split; reflexivity.
    - rewrite Ha, Hs in Hsum. destruct Hsum as [-> ->].
      rewrite deletions_mail, searchEmails_no_deletion.
      split; reflexivity. }
  destruct Hoc as [Hres Hdel].
  destruct (main_cases args w)
    as [[Hyes _] | [(_ & Hs & Hj & _) | (_ & _ & Hrun)]].
  - congruence.
  - destruct Hcrit; congruence.
  - cbv zeta in Hrun. rewrite Hres in Hrun. rewrite Hrun.
    cbn [result trace]. rewrite deletions_app, Hdel.
    split; [reflexivity|]. split; [reflexivity|].
    eexists. reflexivity.
Qed.

(** X26.  Whatever [--max-results] says, a run of [main] makes at most one
    listing request and asks it for no more than 500 results. *)
Theorem main_listing_cap (args : list string) (w : world) :
  let tr := trace (Cli.main parseInt args w) in
  List.length (listings tr) <= 1
  /\ Forall (fun l => exists k, snd l = Num k /\ (k <= 500)%Z) (listings tr).
Proof.
  cbv zeta. rewrite <- listings_mail.
  destruct (main_mail args w) as [-> | (-> & _)];
    [cbn; split; [lia | constructor]|].
  pose proof (cleanup_summary (Cli.parse_args parseInt args) w) as Hsum.
  cbv zeta in Hsum.
  destruct (result (authenticate w)) as [e|auth].
  { destruct Hsum as [_ ->]. cbn. split; [lia | constructor]. }
  set (sc := search_config (Cli.parse_args parseInt args)) in *.
  set (w1 := final (authenticate w)) in *.
  pose proof (searchEmails_listings_capped sc w1) as Hcap.
  destruct (result (searchEmails sc w1)) as [e|matches].
  { destruct Hsum as [_ ->]. rewrite listings_mail. exact Hcap. }
  destruct Hsum as [_ ->].
  rewrite listings_app, listings_mail.
  destruct (Nat.eqb (List.length matches) 0
            || Cli.flag_set (Cli.dryRun (Cli.parse_args parseInt args))).
  - rewrite app_nil_r. exact Hcap.
  - rewrite listings_mail.
    destruct (batchDeleteEmails_no_fetch (map id matches)
                (final (searchEmails sc w1))) as [_ ->].
    rewrite app_nil_r. exact Hcap.
Qed.

End MainBehaviour.

(** ** Splitting the arguments *)

Lemma split_commas_not_nil (s : string) : Cli.split_commas s <> [].
Proof.
  destruct s as [|c s]; cbn; [discriminate|].
  destruct (Ascii.eqb c ","); [discriminate|].
  destruct (Cli.split_commas s); discriminate.
Qed.

(** X27.  Splitting an argument at its commas loses nothing: the pieces
    joined by commas give the argument back, there is always at least one
    piece, and no piece holds a comma. *)
Theorem split_commas_join (s : string) :
  join "," (Cli.split_commas s) = s
  /\ Cli.split_commas s <> []
  /\ Forall (fun piece => has_char "," piece = false) (Cli.split_commas s).
Proof.
  split; [|split; [apply split_commas_not_nil|]].
  - induction s as [|c s IH]; [reflexivity|].
    cbn [Cli.split_commas].
    pose proof (split_commas_not_nil s) as Hne.
    destruct (Ascii.eqb c ",") eqn:Hc.
    + apply Ascii.eqb_eq in Hc. subst c.
      destruct (Cli.split_commas s) as [|piece pieces]; [congruence|].
      change (join "," ("" :: piece :: pieces))
        with ("," ++ join "," (piece :: pieces)).
      rewrite IH. reflexivity.
    + destruct (Cli.split_commas s) as [|piece pieces]; [congruence|].
      rewrite <- IH. destruct pieces; reflexivity.
  - induction s as [|c s IH]; [repeat constructor|].
    cbn [Cli.split_commas].
    destruct (Ascii.eqb c ",") eqn:Hc.
    + constructor; [reflexivity | exact IH].
    + destruct (Cli.split_commas s) as [|piece pieces];
        [repeat constructor; cbn; rewrite Hc; reflexivity|].
      inversion IH as [|? ? Hp Hps]; subst.
      constructor; [|exact Hps]. cbn. rewrite Hc, Hp. reflexivity.
Qed.

(** * More concrete runs *)

(** A machine with no credentials at all. *)
Lemma authenticate_without_credentials_witness :
  @existsSync Stage.bare 0 "credentials.json" = false
  /\ exists message,
       @authenticate Stage.bare 0
       = @mkOutcome Stage.bare _ 0 [] (inl (ErrorObj message)).
Proof.
  split; [reflexivity|]. eexists.
  exact (@authenticate_without_credentials Stage.bare 0 eq_refl eq_refl).
Defined.

(** A credentials file that holds [{}], with the variables set. *)
Lemma authenticate_credentials_file_without_client_witness :
  @process_env Stage.empty_credentials 0 "CLIENT_ID" = Some "id"
  /\ exists message,
       @authenticate Stage.empty_credentials 0
       = @mkOutcome Stage.empty_credentials _ 0 [] (inl (ErrorObj message)).
Proof.
  split; [reflexivity|].
  exact (@authenticate_credentials_file_without_client
           Stage.empty_credentials 0 "{}" [] eq_refl eq_refl eq_refl
           eq_refl eq_refl).
Defined.

(** A first run. *)
Lemma authenticate_first_run_witness :
  @existsSync Stage.first_run 0 "token.json" = false
  /\ probes (trace (@authenticate Stage.first_run 0)) = []
  /\ In ("   https://accounts.example/auth" ++ nl)%string
        (logged (trace (@authenticate Stage.first_run 0))).
Proof.
  split; [reflexivity|].
  destruct (@authenticate_first_run Stage.first_run 0
              (VStr "id") (VStr "secret")
              (VStr "http://localhost:3000/oauth2callback")
              eq_refl eq_refl)
    as (_ & Hprobes & Hurl).
  split; [exact Hprobes | exact Hurl].
Defined.

(** A token file that is not JSON. *)
Lemma authenticate_unreadable_token_witness :
  @existsSync Stage.garbled 0 "token.json" = true
  /\ @authenticate Stage.garbled 0
     = @mkOutcome Stage.garbled _ 0 [] (inl (ErrorObj "SyntaxError")).
Proof.
  split; [reflexivity|].
  apply (@authenticate_unreadable_token Stage.garbled 0
           (VStr "id") (VStr "secret")
           (VStr "http://localhost:3000/oauth2callback")
           (ErrorObj "SyntaxError") eq_refl eq_refl).
  right. exists "garbage". split; reflexivity.
Defined.

(** The code from [AUTH_CODE], and the code typed between spaces. *)
Lemma authorize_code_source_witness :
  let auth :=
    mkOAuth2Client (VStr "id") (VStr "secret")
                   (VStr "http://localhost:3000/oauth2callback") (VObj []) in
  (prompts (trace (@authorize Stage.first_run auth 0)) = []
   /\ map (fun x => fst x)
          (exchanges (trace (@authorize Stage.first_run auth 0)))
      = [(auth, "4/xyz")])
  /\ (prompts (trace (@authorize Stage.typed auth 0))
      = ["Paste the authorization code here: "]
      /\ map (fun x => fst x)
             (exchanges (trace (@authorize Stage.typed auth 0)))
         = [(auth, "4/abc")]).
Proof.
  intros auth.
  destruct (@authorize_code_source Stage.first_run auth 0) as [Henv _].
  destruct (@authorize_code_source Stage.typed auth 0) as [_ Htyped].
  split.
  - exact (Henv "4/xyz" eq_refl eq_refl).
  - exact (Htyped 0 "  4/abc " eq_refl eq_refl eq_refl).
Defined.

(** An operator who types only spaces. *)
Lemma authorize_blank_answer_witness :
  let auth :=
    mkOAuth2Client (VStr "id") (VStr "secret")
                   (VStr "http://localhost:3000/oauth2callback") (VObj []) in
  @trim Stage.blank "   " = ""
  /\ result (@authorize Stage.blank auth 0)
     = inl (ErrorObj
              "Authorization code is required. Please run again and provide the code.")
  /\ exchanges (trace (@authorize Stage.blank auth 0)) = [].
Proof.
  intros auth. split; [reflexivity|].
  destruct (@authorize_blank_answer Stage.blank auth 0 0 "   "
              eq_refl eq_refl eq_refl) as (Hrun & Hex & _).
  split; [rewrite Hrun; reflexivity | exact Hex].
Defined.

(** A first run whose exchange and write succeed, with the code in
    [AUTH_CODE] and with the code typed. *)
Lemma authorize_saves_token_witness :
  let auth :=
    mkOAuth2Client (VStr "id") (VStr "secret")
                   (VStr "http://localhost:3000/oauth2callback") (VObj []) in
  (result (@authorize Stage.first_run auth 0)
   = inr (setCredentials auth Runs.saved)
   /\ writes (trace (@authorize Stage.first_run auth 0))
      = [("token.json", "{}", None)])
  /\ (result (@authorize Stage.typed auth 0)
      = inr (setCredentials auth Runs.saved)
      /\ exchanges (trace (@authorize Stage.typed auth 0))
         = [(auth, "4/abc", None)]
      /\ writes (trace (@authorize Stage.typed auth 0))
         = [("token.json", "{}", None)]).
Proof.
  intros auth.
  destruct (@authorize_saves_token Stage.first_run auth 0 0 1 1 "4/xyz"
              Runs.saved
              (or_introl (conj eq_refl (conj eq_refl eq_refl)))
              eq_refl eq_refl)
    as (Hres & _ & _ & Hw & _).
  destruct (@authorize_saves_token Stage.typed auth 0 0 1 1 "4/abc"
              Runs.saved
              (or_intror
                 (conj eq_refl
                    (ex_intro _ "  4/abc "
                       (conj eq_refl (conj eq_refl eq_refl)))))
              eq_refl eq_refl)
    as (Hres' & _ & Hex' & Hw' & _).
  split; [split; [exact Hres | exact Hw]|].
  split; [exact Hres'|]. split; [exact Hex' | exact Hw'].
Defined.


(** An expired token, re-authorized through [AUTH_CODE]. *)
Lemma authenticate_expired_token_reauthorizes_witness :
  let stale :=
    mkOAuth2Client (VStr "id") (VStr "secret")
                   (VStr "http://localhost:3000/oauth2callback") Runs.saved in
  let o := @authenticate Stage.expired 0 in
  probes (trace o) = [(stale, Some (ErrorObj "boom"))]
  /\ exchanges (trace o) = [(stale, "4/xyz", None)]
  /\ writes (trace o) = [("token.json", "{}", None)]
  /\ final o = 2.
Proof.
  cbv zeta.
  destruct (@authenticate_expired_token_reauthorizes Stage.expired
              0 1 2 2 (VStr "id") (VStr "secret")
              (VStr "http://localhost:3000/oauth2callback") "{}" "4/xyz"
              Runs.saved Runs.saved (ErrorObj "boom")
              eq_refl eq_refl eq_refl eq_refl eq_refl eq_refl eq_refl
              eq_refl eq_refl)
    as (_ & Hfinal & Hprobes & _ & Hex & Hw).
  split; [exact Hprobes|]. split; [exact Hex|].
  split; [exact Hw | exact Hfinal].
Defined.

(** A listing call that fails. *)
Lemma searchEmails_listing_failure_witness :
  let o := @searchEmails Stage.unlisted Runs.by_sender 0 in
  result o = inl (ErrorObj "boom") /\ fetches (trace o) = [].
Proof.
  cbv zeta.
  destruct (@searchEmails_listing_failure Stage.unlisted Runs.by_sender 0 1
              "(from:spam@example.com OR from:promos@example.com)" (Num 500)
              (ErrorObj "boom") eq_refl eq_refl)
    as (Hres & _ & Hf & _).
  split; [exact Hres | exact Hf].
Defined.

(** The nine matches of the run with ten candidates. *)
Lemma searchEmails_matches_bounded_witness :
  exists matches,
    result (@searchEmails Runs.listing Runs.by_sender 0) = inr matches
    /\ List.length matches = 9
    /\ Forall (fun m => str_truthy (id m) = true
                        /\ units (snippet m) <= 100) matches.
Proof.
  destruct (result (@searchEmails Runs.listing Runs.by_sender 0))
    as [e|matches] eqn:Hres; [vm_compute in Hres; discriminate|].
  exists matches. split; [reflexivity|]. split.
  - vm_compute in Hres. injection Hres as <-. reflexivity.
  - exact (@searchEmails_matches_bounded Runs.listing Runs.by_sender 0
             matches Hres).
Defined.

(** The same run, counted. *)
Lemma searchEmails_accounting_witness :
  let tr := trace (@searchEmails Runs.listing Runs.by_sender 0) in
  List.length (fetches tr) = 10
  /\ List.length (error_lines tr) = 1
  /\ exists matches,
       result (@searchEmails Runs.listing Runs.by_sender 0) = inr matches
       /\ List.length matches + List.length (error_lines tr)
          = List.length (fetches tr).
Proof.
  cbv zeta. split; [reflexivity|]. split; [reflexivity|].
  destruct (result (@searchEmails Runs.listing Runs.by_sender 0))
    as [e|matches] eqn:Hres; [vm_compute in Hres; discriminate|].
  exists matches. split; [reflexivity|].
  destruct (@searchEmails_accounting Runs.listing Runs.by_sender 0
              matches Hres) as (_ & Hcount & _).
  exact Hcount.
Defined.

(** A listing without [messages]. *)
Lemma searchEmails_empty_listing_witness :
  let o := @searchEmails Runs.flaky Runs.by_sender 0 in
  result o = inr [] /\ fetches (trace o) = [].
Proof.
  cbv zeta.
  destruct (@searchEmails_empty_listing Runs.flaky Runs.by_sender 0 1
              "(from:spam@example.com OR from:promos@example.com)" (Num 500)
              None eq_refl eq_refl (or_introl eq_refl))
    as (Hres & _ & Hf).
  split; [exact Hres | exact Hf].
Defined.

(** Two ids, one request. *)
Lemma batchDeleteEmails_single_request_witness :
  let o := @batchDeleteEmails Runs.flaky ["m1"; "m2"] false 0 in
  deletions (trace o) = [(["m1"; "m2"], None)]
  /\ result o = inr (mkCleanupResult 2 2 []).
Proof.
  cbv zeta.
  destruct (@batchDeleteEmails_single_request Runs.flaky ["m1"; "m2"] 0
              ltac:(cbn; lia)) as (failure & Hd & Hres).
  assert (Hf : failure = None).
  { assert (Hd' : deletions
                    (trace (@batchDeleteEmails Runs.flaky ["m1"; "m2"]
                              false 0))
                  = [(["m1"; "m2"], None)]) by reflexivity.
    rewrite Hd in Hd'. congruence. }
  subst failure. split; [exact Hd | exact Hres].
Defined.

(** 2500 ids against a service that is down. *)
Lemma batchDeleteEmails_request_count_witness :
  let o := @batchDeleteEmails Stage.down Runs.ids2500 false 0 in
  List.length (deletions (trace o)) = 3
  /\ exists res,
       result o = inr res /\ deleted res = 0
       /\ List.length (errors res) = 3.
Proof.
  cbv zeta.
  destruct (@batchDeleteEmails_request_count Stage.down Runs.ids2500 0)
    as (Hcount & _ & Hall).
  assert (Hlen : (List.length Runs.ids2500 + 999) / 1000 = 3)
    by (vm_compute; reflexivity).
  rewrite Hlen in *. split; [exact Hcount|].
  apply Hall. vm_compute. reflexivity.
Defined.

(** [-h] with nothing else. *)
Lemma main_help_witness :
  result (@Cli.main Stage.locked Stage.parseInt ["-h"] 0) = inr (Some 0)
  /\ trace (@Cli.main Stage.locked Stage.parseInt ["-h"] 0)
     = [console_log Cli.help_text].
Proof.
  rewrite (@main_help Stage.locked Stage.parseInt ["-h"] 0 eq_refl).
  split; reflexivity.
Defined.

(** [--senders] last on the line. *)
Lemma main_missing_criteria_witness :
  Cli.flag_value "--senders" ["--dry-run"; "--senders"] = None
  /\ result (@Cli.main Stage.ready Stage.parseInt
               ["--dry-run"; "--senders"] 0) = inr (Some 1)
  /\ filter is_remote_call
       (trace (@Cli.main Stage.ready Stage.parseInt
                 ["--dry-run"; "--senders"] 0)) = [].
Proof.
  split; [reflexivity|].
  rewrite (@main_missing_criteria Stage.ready Stage.parseInt
             ["--dry-run"; "--senders"] 0 eq_refl eq_refl eq_refl).
  split; reflexivity.
Defined.

(** A dry run that finds nine messages. *)
Lemma main_dry_run_never_deletes_witness :
  let o := @Cli.main Stage.ready Stage.parseInt
             ["--senders"; "spam@example.com"; "--dry-run"] 0 in
  List.length (fetches (trace o)) = 10
  /\ deletions (trace o) = [].
Proof.
  cbv zeta. split; [vm_compute; reflexivity|].
  exact (@main_dry_run_never_deletes Stage.ready Stage.parseInt
           ["--senders"; "spam@example.com"; "--dry-run"] 0 eq_refl).
Defined.

(** The same search, for real. *)
Lemma main_deletes_what_was_fetched_witness :
  let tr := trace (@Cli.main Stage.ready Stage.parseInt
                     ["--senders"; "spam@example.com"] 0) in
  map fst (filter (fun r => negb (rejected r)) (fetches tr))
  = ["m1"; "m3"; "m4"; "m5"; "m6"; "m7"; "m8"; "m9"; "m10"]
  /\ List.concat (map fst (deletions tr))
     = ["m1"; "m3"; "m4"; "m5"; "m6"; "m7"; "m8"; "m9"; "m10"].
Proof.
  cbv zeta.
  assert (Hf :
    map fst (filter (fun r => negb (rejected r))
               (fetches (trace (@Cli.main Stage.ready Stage.parseInt
                                  ["--senders"; "spam@example.com"] 0))))
    = ["m1"; "m3"; "m4"; "m5"; "m6"; "m7"; "m8"; "m9"; "m10"])
    by (vm_compute; reflexivity).
  split; [exact Hf|].
  rewrite (@main_deletes_what_was_fetched Stage.ready Stage.parseInt
             ["--senders"; "spam@example.com"] 0 eq_refl).
  exact Hf.
Defined.

(** A run in which a deletion request goes out. *)
Lemma main_exit_status_witness :
  let o := @Cli.main Stage.ready Stage.parseInt
             ["--senders"; "spam@example.com"] 0 in
  deletions (trace o) <> [] /\ result o = inr None.
Proof.
  cbv zeta.
  assert (Hd :
    deletions (trace (@Cli.main Stage.ready Stage.parseInt
                        ["--senders"; "spam@example.com"] 0)) <> [])
    by (vm_compute; discriminate).
  split; [exact Hd|].
  destruct (@main_exit_status Stage.ready Stage.parseInt
              ["--senders"; "spam@example.com"] 0)
    as (status & Hres & _ & _ & Hnone).
  rewrite Hres, (Hnone Hd). reflexivity.
Defined.

(** A run on a machine without credentials. *)
Lemma main_failure_exit_witness :
  let o := @Cli.main Stage.locked Stage.parseInt
             ["--senders"; "spam@example.com"] 0 in
  (exists message, result (@authenticate Stage.locked 0)
                   = inl (ErrorObj message))
  /\ result o = inr (Some 1)
  /\ deletions (trace o) = [].
Proof.
  cbv zeta.
  destruct (result (@authenticate Stage.locked 0)) as [e|auth] eqn:Ha;
    [|vm_compute in Ha; discriminate].
  assert (Hcrit :
    Cli.senders (@Cli.parse_args Stage.locked Stage.parseInt
                   ["--senders"; "spam@example.com"]) <> None)
    by (vm_compute; discriminate).
  destruct (@main_failure_exit Stage.locked Stage.parseInt
              ["--senders"; "spam@example.com"] 0 e eq_refl
              (or_introl Hcrit) (or_introl Ha))
    as (Hres & Hd & _).
  split; [|split; [exact Hres | exact Hd]].
  vm_compute in Ha. injection Ha as <-. eexists. reflexivity.
Defined.
